(** * Portfolio site (app.js): records, renderers, navigation, contact form

    A shallow embedding of [src/app.js].  JavaScript strings are [string]s,
    arrays are [list]s, DOM nodes are records holding the properties the
    script reads and writes, and every handler is a function from the state
    of the page before the event to the state after it.  The numbers of the
    easing code are binary64 floats, as in JavaScript. *)

From Stdlib Require Import QArith ZArith NArith String Ascii List Bool Lia.
From Stdlib Require Import Sorted.
From Stdlib Require Import PrimFloat FloatOps SpecFloat.
From stdpp Require Import gmap list.
Import ListNotations.
Local Open Scope string_scope.

(** ** JavaScript string helpers *)

Module JS.

(** The double-quote character, spelled by its code. *)
Definition dquote : ascii := ascii_of_nat 34.

(** [lit] writes a template chunk the way the source has it, with the
    apostrophe standing for the double quote of the source text (no template
    of app.js contains an apostrophe of its own). *)
Fixpoint lit (s : string) : string :=
  match s with
  | EmptyString => EmptyString
  | String c s' => String (if Ascii.eqb c "'"%char then dquote else c) (lit s')
  end.

(** [Array.prototype.join(sep)] on an array of strings. *)
Fixpoint join (sep : string) (l : list string) : string :=
  match l with
  | [] => ""
  | [x] => x
  | x :: rest => x ++ sep ++ join sep rest
  end.

(** [String.prototype.includes(needle)]: [prefix needle] tried at every
    position of the haystack. *)
Fixpoint includes (needle hay : string) : bool :=
  match hay with
  | EmptyString => String.prefix needle hay
  | String _ hay' => String.prefix needle hay || includes needle hay'
  end.

(** [s] occurs in [t] as a contiguous run of characters. *)
Definition substring_of (s t : string) : Prop :=
  exists pre post, t = pre ++ s ++ post.

(** [DOMTokenList]: an ordered set of class names. *)
Definition classList := list string.

Definition has_class (c : string) (l : classList) : bool :=
  existsb (String.eqb c) l.

Definition classList_add (c : string) (l : classList) : classList :=
  if has_class c l then l else (l ++ [c])%list.

Definition classList_remove (c : string) (l : classList) : classList :=
  List.filter (fun x => negb (String.eqb c x)) l.

Definition classList_toggle (c : string) (l : classList) : classList :=
  if has_class c l then classList_remove c l else (l ++ [c])%list.

End JS.

(** ** Base classes and records *)

(** [class Model]: one mutable slot [data] with a getter and a setter. *)
Module Model.

Record t (D : Type) : Type := new { data : D }.
Arguments new {D} _.
Arguments data {D} _.

Definition getData {D} (m : t D) : D := data m.

Definition setData {D} (d : D) (m : t D) : t D := new d.

End Model.

(** The interface the section renderers rely on: a record type whose
    instances produce a markup fragment. *)
Class ToHTML (R : Type) := toHTML : R -> string.

Module Skill.

Record Data := { name : string; description : string; icon : string }.

Definition t := Model.t Data.

(** [constructor(name, description, icon)] *)
Definition new (name description icon : string) : t :=
  Model.new {| name := name; description := description; icon := icon |}.

Definition render (d : Data) : string :=
  JS.lit "
            <div class='skill-card fade-in'>
                <div class='skill-icon'>" ++ icon d ++ JS.lit "</div>
                <h3 class='skill-name'>" ++ name d ++ JS.lit "</h3>
                <p class='skill-description'>" ++ description d ++ JS.lit "</p>
            </div>
        ".

#[global] Instance to_html : ToHTML t := fun s => render (Model.data s).

End Skill.

Module PortfolioItem.

Record Data := {
  title : string;
  description : string;
  tags : list string;
  image : option string   (* [null] in every literal of the controller *)
}.

Definition t := Model.t Data.

(** [constructor(title, description, tags, image)] *)
Definition new (title description : string) (tags : list string)
    (image : option string) : t :=
  Model.new {| title := title; description := description;
               tags := tags; image := image |}.

Definition tagHTML (tag : string) : string :=
  JS.lit "<span class='portfolio-tag'>" ++ tag ++ JS.lit "</span>".

Definition tagsHTML (d : Data) : string :=
  JS.join "" (List.map tagHTML (tags d)).

Definition render (d : Data) : string :=
  JS.lit "
            <div class='portfolio-item fade-in'>
                <div class='portfolio-image'>
                    <svg viewBox='0 0 24 24' fill='none' stroke='currentColor' stroke-width='2'>
                        <rect x='3' y='3' width='18' height='18' rx='2'/>
                        <circle cx='8.5' cy='8.5' r='1.5'/>
                        <path d='M21 15l-5-5L5 21'/>
                    </svg>
                </div>
                <div class='portfolio-content'>
                    <h3 class='portfolio-title'>" ++ title d ++ JS.lit "</h3>
                    <p class='portfolio-description'>" ++ description d ++ JS.lit "</p>
                    <div class='portfolio-tags'>" ++ tagsHTML d ++ JS.lit "</div>
                </div>
            </div>
        ".

#[global] Instance to_html : ToHTML t := fun p => render (Model.data p).

End PortfolioItem.

Module TimelineItem.

Record Data := {
  date : string;
  title : string;
  company : string;
  description : string
}.

Definition t := Model.t Data.

(** [constructor(date, title, company, description)] *)
Definition new (date title company description : string) : t :=
  Model.new {| date := date; title := title; company := company;
               description := description |}.

Definition render (d : Data) : string :=
  JS.lit "
            <div class='timeline-item slide-in-left'>
                <div class='timeline-date'>" ++ date d ++ JS.lit "</div>
                <h3 class='timeline-title'>" ++ title d ++ JS.lit "</h3>
                <div class='timeline-company'>" ++ company d ++ JS.lit "</div>
                <p class='timeline-description'>" ++ description d ++ JS.lit "</p>
            </div>
        ".

#[global] Instance to_html : ToHTML t := fun i => render (Model.data i).

End TimelineItem.

(** ** Section renderers *)

(** [SkillsGrid], [PortfolioGrid] and [Timeline] share one [render]: map
    every record to its fragment, join the fragments with the empty separator
    and assign the result to the container's [innerHTML].  The records stay
    in [this.skills] / [this.items].  ([animateOnScroll], called last, only
    styles and observes the children the browser parsed out of that markup;
    it writes neither [innerHTML] nor the records.) *)
Module Grid.

Section Render.

Context {R : Type} `{ToHTML R}.

Record t := make { innerHTML : string; items : list R }.

Definition render (g : t) : t :=
  let itemsHTML := JS.join "" (List.map toHTML (items g)) in
  {| innerHTML := itemsHTML; items := items g |}.

(** [constructor(items)]: bind the container, keep the list, render. *)
Definition new (container : string) (l : list R) : t :=
  render {| innerHTML := container; items := l |}.

End Render.

Arguments t R : clear implicits.

End Grid.

Module SkillsGrid.
Definition render : Grid.t Skill.t -> Grid.t Skill.t := Grid.render.
End SkillsGrid.

Module PortfolioGrid.
Definition render : Grid.t PortfolioItem.t -> Grid.t PortfolioItem.t :=
  Grid.render.
End PortfolioGrid.

Module Timeline.
Definition render : Grid.t TimelineItem.t -> Grid.t TimelineItem.t :=
  Grid.render.
End Timeline.

(** ** The records of a page, by reference *)

(** The objects of one record class: each has one slot, [data].  [assigned]
    logs every assignment to a [data] slot (the reference assigned, oldest
    first); only the [Model] constructor and [setData] assign it. *)
Module Heap.

Section Heap.

Context {D : Type}.

Record t := {
  objects : gmap nat (Model.t D);
  assigned : list nat;
  next : nat
}.

Definition empty : t := {| objects := ∅; assigned := []; next := 0 |}.

(** [new C(...)]: [super({...})] runs [this.data = data] on a fresh object. *)
Definition construct (d : D) (h : t) : nat * t :=
  (next h,
   {| objects := <[next h := Model.new d]> (objects h);
      assigned := (assigned h ++ [next h])%list;
      next := S (next h) |}).

(** [record.setData(data)] *)
Definition setData (ref : nat) (d : D) (h : t) : t :=
  {| objects := alter (Model.setData d) ref (objects h);
     assigned := (assigned h ++ [ref])%list;
     next := next h |}.

(** [record.getData()] *)
Definition getData (ref : nat) (h : t) : option D :=
  Model.getData <$> objects h !! ref.

(** An array literal of constructor calls, evaluated left to right. *)
Fixpoint build (args : list D) (h : t) : list nat * t :=
  match args with
  | [] => ([], h)
  | d :: rest =>
      let (ref, h1) := construct d h in
      let (refs, h2) := build rest h1 in
      (ref :: refs, h2)
  end.

(** The objects an array of references stands for, read now. *)
Fixpoint deref (refs : list nat) (h : t) : option (list (Model.t D)) :=
  match refs with
  | [] => Some []
  | ref :: rest =>
      match objects h !! ref, deref rest h with
      | Some o, Some os => Some (o :: os)
      | _, _ => None
      end
  end.

(** The heap holds the records constructed from [args], in that order, and
    nothing else; each one's [data] was assigned once, and holds what its
    constructor was given. *)
Definition constructed_once (args : list D) (h : t) : Prop :=
  assigned h = List.seq 0 (List.length args)
  /\ forall ref, getData ref h = List.nth_error args ref.

End Heap.

Arguments t D : clear implicits.

End Heap.

(** ** Application controller *)

(** [PortfolioApp.init], as far as the records go: each [get...Data] builds
    its array of records, and the section renderer constructed from the array
    keeps the references and renders through them.  ([Navigation],
    [ContactForm] and [ScrollAnimations], constructed by [init] as well, hold
    document nodes only.)  The literals of the three [get...Data] methods are
    the constructor arguments [skillsData], [portfolioData], [timelineData];
    the heap is kept per record class. *)
Module PortfolioApp.

(** [new SkillsGrid(skills)] and its siblings: [this.items = items;
    this.render()]. *)
Definition section {D : Type} `{ToHTML (Model.t D)} (container : string)
    (items : list nat) (h : Heap.t D) : option (Grid.t (Model.t D)) :=
  option_map (Grid.new container) (Heap.deref items h).

Record Page := {
  skills : Heap.t Skill.Data;
  projects : Heap.t PortfolioItem.Data;
  entries : Heap.t TimelineItem.Data;
  skillsGrid : Grid.t Skill.t;
  portfolioGrid : Grid.t PortfolioItem.t;
  timeline : Grid.t TimelineItem.t
}.

Definition init (skillsData : list Skill.Data)
    (portfolioData : list PortfolioItem.Data)
    (timelineData : list TimelineItem.Data)
    (skillsContainer portfolioContainer timelineContainer : string)
    : option Page :=
  let (skills, h1) := Heap.build skillsData Heap.empty in
  match section skillsContainer skills h1 with
  | None => None
  | Some g1 =>
      let (portfolioItems, h2) := Heap.build portfolioData Heap.empty in
      match section portfolioContainer portfolioItems h2 with
      | None => None
      | Some g2 =>
          let (timelineItems, h3) := Heap.build timelineData Heap.empty in
          match section timelineContainer timelineItems h3 with
          | None => None
          | Some g3 =>
              Some {| skills := h1; projects := h2; entries := h3;
                      skillsGrid := g1; portfolioGrid := g2; timeline := g3 |}
          end
      end
  end.

End PortfolioApp.

(** ** Navigation *)

(** A DOM event, as far as the handlers use it. *)
Record Event := { defaultPrevented : bool }.

Definition preventDefault (e : Event) : Event := {| defaultPrevented := true |}.

(** Strict comparison of two numbers. *)
Definition Qltb (x y : Q) : bool := negb (Qle_bool y x).

Module Navigation.

(** The two values the scroll handler writes to [element.style.transform]. *)
Definition shown : string := "translateY(0)".
Definition hidden : string := "translateY(-100%)".

(** The argument of [window.scrollTo]. *)
Record ScrollToOptions := { top : Z; behavior : string }.

(** What the navigation component reads and writes: the header's
    [style.transform], the closure variable [lastScroll], the class list of
    the menu and the scroll requests sent to the window, oldest first. *)
Record State := {
  transform : string;
  lastScroll : Q;
  menu : JS.classList;
  scrollTo_calls : list ScrollToOptions
}.

(** State when the listeners are registered: [let lastScroll = 0]. *)
Definition init (transform0 : string) (menu0 : JS.classList) : State :=
  {| transform := transform0; lastScroll := 0; menu := menu0;
     scrollTo_calls := [] |}.

Definition set_transform (v : string) (s : State) : State :=
  {| transform := v; lastScroll := lastScroll s; menu := menu s;
     scrollTo_calls := scrollTo_calls s |}.

Definition set_lastScroll (q : Q) (s : State) : State :=
  {| transform := transform s; lastScroll := q; menu := menu s;
     scrollTo_calls := scrollTo_calls s |}.

(** [setupToggle]: the click listener of the toggle button. *)
Definition onToggle (s : State) : State :=
  {| transform := transform s; lastScroll := lastScroll s;
     menu := JS.classList_toggle "active" (menu s);
     scrollTo_calls := scrollTo_calls s |}.

(** [setupScroll]: the scroll listener; [currentScroll] is
    [window.pageYOffset] at the event. *)
Definition onScroll (currentScroll : Q) (s : State) : State :=
  if Qle_bool currentScroll 0 then
    set_transform shown s                      (* return *)
  else
    let s1 :=
      if Qltb (lastScroll s) currentScroll && Qltb 100 currentScroll
      then set_transform hidden s              (* Scroll down *)
      else set_transform shown s in            (* Scroll up *)
    set_lastScroll currentScroll s1.

(** The listener run over a sequence of scroll events. *)
Definition scroll_run (offsets : list Q) (s : State) : State :=
  fold_left (fun st y => onScroll y st) offsets s.

(** The header's transform after each event of the sequence. *)
Fixpoint scroll_trace (offsets : list Q) (s : State) : list string :=
  match offsets with
  | [] => []
  | y :: rest => let s' := onScroll y s in transform s' :: scroll_trace rest s'
  end.

(** The last offset above zero in a sequence of scroll events, or [d] when
    there is none. *)
Definition last_positive (offsets : list Q) (d : Q) : Q :=
  List.last (List.filter (fun y => Qltb 0 y) offsets) d.

(** An element [document.querySelector] can return, with its [offsetTop]. *)
Record Target := { offsetTop : Z }.

(** [document.querySelector(sel)]: a syntax error for a selector that does
    not parse, [null] when nothing matches, else the first match. *)
Inductive QueryResult :=
| SyntaxError
| Null
| Found (target : Target).

Definition Document := string -> QueryResult.

Inductive Outcome (A : Type) :=
| Returned (a : A)
| Threw.
Arguments Returned {A} _.
Arguments Threw {A}.

(** [setupLinks]: the click listener of the link whose [href] attribute is
    [href]. *)
Definition onLinkClick (doc : Document) (href : string) (e : Event)
    (s : State) : Event * Outcome State :=
  let e' := preventDefault e in
  let targetId := href in
  match doc targetId with
  | SyntaxError => (e', Threw)
  | Null => (e', Returned s)
  | Found target =>
      let offset := 80%Z in
      let targetPosition := (offsetTop target - offset)%Z in
      (e', Returned
         {| transform := transform s; lastScroll := lastScroll s;
            (* Close mobile menu *)
            menu := JS.classList_remove "active" (menu s);
            scrollTo_calls :=
              (scrollTo_calls s
                 ++ [{| top := targetPosition; behavior := "smooth" |}])%list
         |})
  end.

End Navigation.

(** ** Contact form *)

Module ContactForm.

(** A form control: its current value and the value [form.reset()] restores. *)
Record Field := { value : string; defaultValue : string }.

Record FormData := { name : string; email : string; message : string }.

(** The style properties [showMessage] sets through [cssText]. *)
Record Style := {
  padding : string;
  margin_top : string;
  border_radius : string;
  background : string;
  color : string;
  animation : string
}.

Record MessageDiv := {
  className : string;
  textContent : string;
  style : Style
}.

(** The two timer callbacks of [showMessage], each closed over the node it
    created. *)
Inductive Callback :=
| FadeOutThenRemove (node : nat)
| RemoveNode (node : nat).

Record Timer := { due : N; callback : Callback }.

(** The page around the form: the clock, the three controls, the nodes
    appended to the form (in document order, under the handle
    [createElement] returned), the pending timers (earliest first), and the
    arguments of every [console.log] call so far. *)
Record World := {
  now : N;
  name_field : Field;
  email_field : Field;
  message_field : Field;
  children : list (nat * MessageDiv);
  timers : list Timer;
  console : list (string * FormData);
  next_node : nat
}.

Definition reset_field (f : Field) : Field :=
  {| value := defaultValue f; defaultValue := defaultValue f |}.

(** [this.element.reset()] *)
Definition reset (w : World) : World :=
  {| now := now w;
     name_field := reset_field (name_field w);
     email_field := reset_field (email_field w);
     message_field := reset_field (message_field w);
     children := children w; timers := timers w; console := console w;
     next_node := next_node w |}.

Definition console_log (label : string) (d : FormData) (w : World) : World :=
  {| now := now w; name_field := name_field w; email_field := email_field w;
     message_field := message_field w; children := children w;
     timers := timers w; console := (console w ++ [(label, d)])%list;
     next_node := next_node w |}.

(** Timers fire in the order of their due times, and in the order they were
    set among equal due times. *)
Fixpoint enqueue (t : Timer) (q : list Timer) : list Timer :=
  match q with
  | [] => [t]
  | t' :: q' => if (due t <? due t')%N then t :: q else t' :: enqueue t q'
  end.

Definition setTimeout (cb : Callback) (delay : N) (w : World) : World :=
  {| now := now w; name_field := name_field w; email_field := email_field w;
     message_field := message_field w; children := children w;
     timers := enqueue {| due := now w + delay; callback := cb |} (timers w);
     console := console w; next_node := next_node w |}.

Definition set_children (c : list (nat * MessageDiv)) (w : World) : World :=
  {| now := now w; name_field := name_field w; email_field := email_field w;
     message_field := message_field w; children := c;
     timers := timers w; console := console w; next_node := next_node w |}.

Definition set_animation (a : string) (m : MessageDiv) : MessageDiv :=
  {| className := className m; textContent := textContent m;
     style := {| padding := padding (style m);
                 margin_top := margin_top (style m);
                 border_radius := border_radius (style m);
                 background := background (style m);
                 color := color (style m);
                 animation := a |} |}.

(** [showMessage(message, type)] *)
Definition showMessage (message type : string) (w : World) : World :=
  let node := next_node w in
  let messageDiv :=
    {| className := "form-message " ++ type;
       textContent := message;
       style := {| padding := "1rem";
                   margin_top := "1rem";
                   border_radius := "6px";
                   background :=
                     if String.eqb type "success" then "#C17B5F" else "#E57373";
                   color := "white";
                   animation := "fadeIn 0.3s ease" |} |} in
  let w1 :=
    {| now := now w; name_field := name_field w; email_field := email_field w;
       message_field := message_field w;
       children := (children w ++ [(node, messageDiv)])%list;
       timers := timers w; console := console w; next_node := S node |} in
  setTimeout (FadeOutThenRemove node) 3000 w1.

(** [handleSubmit(e)] *)
Definition handleSubmit (e : Event) (w : World) : Event * World :=
  let e' := preventDefault e in
  let formData :=
    {| name := value (name_field w);
       email := value (email_field w);
       message := value (message_field w) |} in
  (* Here you would normally send the data to a server *)
  let w1 := console_log "Form submitted:" formData w in
  (* Show success message *)
  let w2 := showMessage "Thank you! Your message has been sent." "success" w1 in
  (* Reset form *)
  (e', reset w2).

(** Running a timer callback. *)
Definition fire (cb : Callback) (w : World) : World :=
  match cb with
  | FadeOutThenRemove node =>
      let w1 :=
        set_children
          (List.map (fun c => if Nat.eqb (fst c) node
                              then (fst c, set_animation "fadeOut 0.3s ease" (snd c))
                              else c)
                    (children w)) w in
      setTimeout (RemoveNode node) 300 w1
  | RemoveNode node =>
      set_children
        (List.filter (fun c => negb (Nat.eqb (fst c) node)) (children w)) w
  end.

Definition set_clock (t : N) (q : list Timer) (w : World) : World :=
  {| now := t; name_field := name_field w; email_field := email_field w;
     message_field := message_field w; children := children w;
     timers := q; console := console w; next_node := next_node w |}.

(** The event loop with no further user input: fire, in order, every timer
    due at or before [until], each at its due time, then let the clock reach
    [until].  [fuel] bounds the number of callbacks run; [None] when it is
    used up with a timer still due. *)
Fixpoint run_until (fuel : nat) (until : N) (w : World) : option World :=
  match timers w with
  | [] => Some (set_clock (N.max (now w) until) [] w)
  | t :: q =>
      if (due t <=? until)%N then
        match fuel with
        | O => None
        | S fuel' =>
            run_until fuel' until
              (fire (callback t) (set_clock (N.max (now w) (due t)) q w))
        end
      else Some (set_clock (N.max (now w) until) (t :: q) w)
  end.

(** The page at the moment of a submit: the user has typed into the three
    controls, nothing has been appended to the form and no timer is pending. *)
Definition filled (t0 : N) (typed defaults : FormData)
    (log0 : list (string * FormData)) (node0 : nat) : World :=
  {| now := t0;
     name_field := {| value := name typed; defaultValue := name defaults |};
     email_field := {| value := email typed; defaultValue := email defaults |};
     message_field :=
       {| value := message typed; defaultValue := message defaults |};
     children := []; timers := []; console := log0; next_node := node0 |}.

(** The values currently in the three controls. *)
Definition values (w : World) : FormData :=
  {| name := value (name_field w);
     email := value (email_field w);
     message := value (message_field w) |}.

(** The success banner, with the given [style.animation]. *)
Definition banner (anim : string) : MessageDiv :=
  {| className := "form-message success";
     textContent := "Thank you! Your message has been sent.";
     style := {| padding := "1rem"; margin_top := "1rem";
                 border_radius := "6px"; background := "#C17B5F";
                 color := "white"; animation := anim |} |}.

End ContactForm.

(** ** Scroll animations *)

Module ScrollAnimations.

(** An [IntersectionObserverEntry]: the observed element, by handle, and
    whether it now intersects the viewport. *)
Record Entry := { target : nat; isIntersecting : bool }.

(** The observed [.section] elements, each with its class list. *)
Abbreviation Sections := (gmap nat JS.classList).

(** The observer callback on one batch of entries. *)
Definition callback (entries : list Entry) (dom : Sections) : Sections :=
  fold_left
    (fun d entry =>
       if isIntersecting entry
       then alter (JS.classList_add "fade-in") (target entry) d
       else d)
    entries dom.

(** The callback over the successive batches the browser delivers. *)
Definition observe (batches : list (list Entry)) (dom : Sections) : Sections :=
  fold_left (fun d entries => callback entries d) batches dom.

(** Is the element marked? *)
Definition revealed (el : nat) (dom : Sections) : bool :=
  match dom !! el with
  | Some cl => JS.has_class "fade-in" cl
  | None => false
  end.

End ScrollAnimations.

(** ** Smooth-scroll utility *)

(** JavaScript numbers are binary64 floats; [ease] and the frame test of
    [animation] compute on them, each operation rounded as IEEE 754 has it. *)
Module SmoothScroll.

Local Open Scope float_scope.

(** [function ease(t, b, c, d)] *)
Definition ease (t b c d : float) : float :=
  let t := t / (d / 2) in
  if t <? 1 then c / 2 * t * t + b
  else
    let t := t - 1 in
    - c / 2 * (t * (t - 2) - 1) + b.

(** One [animation(currentTime)] frame: the position passed to
    [window.scrollTo], the updated [startTime], and whether another frame is
    requested. *)
Definition animation (startPosition distance duration : float)
    (startTime : option float) (currentTime : float)
    : float * option float * bool :=
  let startTime := match startTime with None => currentTime | Some t0 => t0 end in
  let timeElapsed := currentTime - startTime in
  let run := ease timeElapsed startPosition distance duration in
  (run, Some startTime, timeElapsed <? duration).

(** The rational number a finite double stands for; [None] for NaN and the
    infinities. *)
Definition value (x : float) : option Q :=
  match Prim2SF x with
  | S754_zero _ => Some 0%Q
  | S754_finite s m e =>
      Some (inject_Z (if s then Zneg m else Zpos m) * Qpower 2 e)%Q
  | _ => None
  end.


Definition is_exactly (x : float) (X : Q) : bool :=
  match value x with
  | Some X' => Qeq_bool X' X
  | None => false
  end.

(** An operation on doubles that incurs no rounding at its operands: its
    result stands for the exact result on what the operands stand for. *)
Definition exact1 (f : float -> float) (q : Q -> Q) (x : float) : bool :=
  match value x with
  | Some X => is_exactly (f x) (q X)
  | None => false
  end.

Definition exact2 (f : float -> float -> float) (q : Q -> Q -> Q)
    (x y : float) : bool :=
  match value x, value y with
  | Some X, Some Y => is_exactly (f x y) (q X Y)
  | _, _ => false
  end.

(** The comparison of two finite doubles is that of the numbers they stand
    for. *)
Definition exact_lt (x y : float) : bool :=
  match value x, value y with
  | Some X, Some Y => Bool.eqb (x <? y) (Qltb X Y)
  | _, _ => false
  end.

(** Does [ease(t, b, c, d)] run without rounding: is every operation on the
    path it takes exact? *)
Definition exact_run (t b c d : float) : bool :=
  let h := d / 2 in
  let u := t / h in
  exact2 div Qdiv d 2 && exact2 div Qdiv t h && exact_lt u 1
  && if u <? 1 then
       exact2 div Qdiv c 2
       && exact2 mul Qmult (c / 2) u
       && exact2 mul Qmult (c / 2 * u) u
       && exact2 add Qplus (c / 2 * u * u) b
     else
       let v := u - 1 in
       exact2 sub Qminus u 1
       && exact1 opp Qopp c
       && exact2 div Qdiv (- c) 2
       && exact2 sub Qminus v 2
       && exact2 mul Qmult v (v - 2)
       && exact2 sub Qminus (v * (v - 2)) 1
       && exact2 mul Qmult (- c / 2) (v * (v - 2) - 1)
       && exact2 add Qplus (- c / 2 * (v * (v - 2) - 1)) b.


End SmoothScroll.

(** ** Observers and frames over a whole run *)

(** Does some entry of the batches report [el] intersecting? *)
Definition intersected (el : nat) (batches : list (list ScrollAnimations.Entry))
    : bool :=
  existsb (fun entry => ScrollAnimations.isIntersecting entry
                        && Nat.eqb (ScrollAnimations.target entry) el)
          (List.concat batches).

(** [smoothScroll]'s frame loop: [requestAnimationFrame] calls [animation]
    with the timestamps [times], one per frame, for as long as the frame
    before asked for another.  The result lists the positions passed to
    [window.scrollTo]. *)
Fixpoint frames (startPosition distance duration : float)
    (startTime : option float) (times : list float) : list float :=
  match times with
  | [] => []
  | currentTime :: rest =>
      let '(run, startTime', again) :=
        SmoothScroll.animation startPosition distance duration
                               startTime currentTime in
      run :: (if again
              then frames startPosition distance duration startTime' rest
              else [])
  end.

(** ** Debounce utility *)

(** [debounce(func, wait, immediate)] returns a function with one closure
    variable, [timeout].  The state below holds that variable (the pending
    timer, with its due time and the arguments its [later] closed over,
    [None] for [undefined] and [null]) and the calls of [func] made so far,
    each with its arguments and the time of the call, or the time the timer
    was due, that triggered it.  A timer callback runs in an event-loop turn
    of its own, at or after its due time: a call never runs it. *)
Module Debounce.

Section Debounced.

Context {A : Type}.
Variables (wait : N) (immediate : bool).

Record State := {
  timeout : option (N * A);
  invoked : list (N * A)
}.

(** No call yet: [let timeout;] *)
Definition init : State := {| timeout := None; invoked := [] |}.

(** [later], run by the timer at its due time. *)
Definition later (due : N) (args : A) (s : State) : State :=
  {| timeout := None;
     invoked := if negb immediate
                then (invoked s ++ [(due, args)])%list
                else invoked s |}.

(** An event-loop turn at time [t] with no call in it: the callback of the
    pending timer runs if the timer is due. *)
Definition elapse (t : N) (s : State) : State :=
  match timeout s with
  | Some (due, args) => if (due <=? t)%N then later due args s else s
  | None => s
  end.

(** A call of the debounced function at time [t] with arguments [args]. *)
Definition call (t : N) (args : A) (s : State) : State :=
  let callNow :=
    immediate && match timeout s with None => true | Some _ => false end in
  (* clearTimeout(timeout); timeout = setTimeout(later, wait); *)
  let pending := Some ((t + wait)%N, args) in
  {| timeout := pending;
     invoked := if callNow then (invoked s ++ [(t, args)])%list
                else invoked s |}.

(** A sequence of calls, oldest first, with no timer callback run in
    between. *)
Definition run (calls : list (N * A)) (s : State) : State :=
  fold_left (fun st c => call (fst c) (snd c) st) calls s.

(** What happens to the debounced function: it is called, or the event loop
    takes a turn in which a due timer callback runs. *)
Inductive Event :=
| Call (t : N) (args : A)
| Turn (t : N).

Definition handle (e : Event) (s : State) : State :=
  match e with
  | Call t args => call t args s
  | Turn t => elapse t s
  end.

Definition play (events : list Event) (s : State) : State :=
  fold_left (fun st e => handle e st) events s.

(** The calls of a page whose event loop is never kept busy: it takes a turn
    right before every call, so that a timer due by then has run. *)
Definition promptly (calls : list (N * A)) : list Event :=
  List.flat_map (fun c => [Turn (fst c); Call (fst c) (snd c)]) calls.

(** The calls that open a burst: the first one, and every one that comes
    [wait] or more after the call before it. *)
Fixpoint leading (prev : option N) (calls : list (N * A)) : list (N * A) :=
  match calls with
  | [] => []
  | c :: rest =>
      let opens := match prev with
                   | None => true
                   | Some p => (p + wait <=? fst c)%N
                   end in
      if opens then c :: leading (Some (fst c)) rest
      else leading (Some (fst c)) rest
  end.

(** The calls that close a burst, each moved to the time its timer fires:
    every call that the next one follows by [wait] or more, and the last. *)
Fixpoint trailing (calls : list (N * A)) : list (N * A) :=
  match calls with
  | [] => []
  | c :: rest =>
      let closes := match rest with
                    | [] => true
                    | c' :: _ => (fst c + wait <=? fst c')%N
                    end in
      if closes then ((fst c + wait)%N, snd c) :: trailing rest
      else trailing rest
  end.

(** Does each call come after the one before it (the first after the call
    at [prev]), and by less than [wait]? *)
Fixpoint within_wait (prev : N) (calls : list (N * A)) : bool :=
  match calls with
  | [] => true
  | c :: rest =>
      (prev <=? fst c)%N && (fst c <? prev + wait)%N && within_wait (fst c) rest
  end.

End Debounced.

Arguments State A : clear implicits.

End Debounce.

(** ** Staggered reveal of the rendered cards *)

(** [animateOnScroll] of [SkillsGrid], [PortfolioGrid] and [Timeline]: the
    three differ in the transform a card starts from, the transform it ends
    at, and the delay between one entry of a batch and the next. *)
Module Stagger.

(** The style properties the method writes. *)
Record Style := { opacity : string; transform : string; transition : string }.

Record Kind := { offscreen : string; onscreen : string; step : N }.

Definition skills : Kind :=
  {| offscreen := "translateY(20px)"; onscreen := "translateY(0)"; step := 100 |}.
Definition portfolio : Kind :=
  {| offscreen := "translateY(30px)"; onscreen := "translateY(0)"; step := 150 |}.
Definition timeline : Kind :=
  {| offscreen := "translateX(-30px)"; onscreen := "translateX(0)"; step := 200 |}.

(** A pending timer: its due time and the card its callback closed over. *)
Abbreviation Timer := (N * nat)%type.

(** The clock, the cards [querySelectorAll] found (by handle, with their
    style) and the pending timers, earliest first. *)
Record World := {
  now : N;
  cards : gmap nat Style;
  timers : list Timer
}.

Section Grid.

Variable k : Kind.

(** The loop over the cards: hide each one and observe it. *)
Definition hide (st : Style) : Style :=
  {| opacity := "0"; transform := offscreen k; transition := "all 0.6s ease" |}.

Definition animateOnScroll (w : World) : World :=
  {| now := now w; cards := hide <$> cards w; timers := timers w |}.

(** The body of the timer callback. *)
Definition show (st : Style) : Style :=
  {| opacity := "1"; transform := onscreen k; transition := transition st |}.

Fixpoint enqueue (t : Timer) (q : list Timer) : list Timer :=
  match q with
  | [] => [t]
  | t' :: q' => if (fst t <? fst t')%N then t :: q else t' :: enqueue t q'
  end.

(** [entries.forEach((entry, index) => ...)] from [index] on, at time [t0]. *)
Fixpoint schedule (t0 index : N) (entries : list ScrollAnimations.Entry)
    (q : list Timer) : list Timer :=
  match entries with
  | [] => q
  | entry :: rest =>
      schedule t0 (index + 1) rest
        (if ScrollAnimations.isIntersecting entry
         then enqueue ((t0 + index * step k)%N, ScrollAnimations.target entry) q
         else q)
  end.

(** The observer callback on one batch of entries. *)
Definition callback (entries : list ScrollAnimations.Entry) (w : World)
    : World :=
  {| now := now w; cards := cards w;
     timers := schedule (now w) 0 entries (timers w) |}.

(** The event loop: fire, in order, every timer due at or before [until].
    [None] when [fuel] callbacks have run and a timer is still due. *)
Fixpoint run_until (fuel : nat) (until : N) (w : World) : option World :=
  match timers w with
  | [] => Some {| now := N.max (now w) until; cards := cards w; timers := [] |}
  | t :: q =>
      if (fst t <=? until)%N then
        match fuel with
        | O => None
        | S fuel' =>
            run_until fuel' until
              {| now := N.max (now w) (fst t);
                 cards := alter show (snd t) (cards w);
                 timers := q |}
        end
      else Some {| now := N.max (now w) until; cards := cards w;
                   timers := t :: q |}
  end.

(** Timers in the order of their due times. *)
Definition due_le (a b : Timer) : Prop := (fst a <= fst b)%N.

(** Has an intersecting entry for [el], at position [index] or later in the
    batch delivered at [t0], had its delay run out by [T]? *)
Fixpoint due_by (t0 T index : N) (el : nat)
    (entries : list ScrollAnimations.Entry) : bool :=
  match entries with
  | [] => false
  | entry :: rest =>
      (ScrollAnimations.isIntersecting entry
       && Nat.eqb (ScrollAnimations.target entry) el
       && (t0 + index * step k <=? T)%N)
      || due_by t0 T (index + 1) el rest
  end.

End Grid.

End Stagger.

(** ** A session at the contact form *)

(** The user fills in the form and submits it, or time passes; any number of
    times, in any order. *)
Module FormSession.

Inductive Input :=
| Submit (typed : ContactForm.FormData)
| Wait (dt : N).

(** Typing sets the values of the controls and leaves their defaults. *)
Definition type_in (typed : ContactForm.FormData) (w : ContactForm.World)
    : ContactForm.World :=
  {| ContactForm.now := ContactForm.now w;
     ContactForm.name_field :=
       {| ContactForm.value := ContactForm.name typed;
          ContactForm.defaultValue :=
            ContactForm.defaultValue (ContactForm.name_field w) |};
     ContactForm.email_field :=
       {| ContactForm.value := ContactForm.email typed;
          ContactForm.defaultValue :=
            ContactForm.defaultValue (ContactForm.email_field w) |};
     ContactForm.message_field :=
       {| ContactForm.value := ContactForm.message typed;
          ContactForm.defaultValue :=
            ContactForm.defaultValue (ContactForm.message_field w) |};
     ContactForm.children := ContactForm.children w;
     ContactForm.timers := ContactForm.timers w;
     ContactForm.console := ContactForm.console w;
     ContactForm.next_node := ContactForm.next_node w |}.

(** The submit listener registered by [init]: [(e) => this.handleSubmit(e)]. *)
Definition submit (typed : ContactForm.FormData) (w : ContactForm.World)
    : ContactForm.World :=
  snd (ContactForm.handleSubmit {| defaultPrevented := false |}
         (type_in typed w)).

(** A pending fade-out runs two callbacks before it is done, a pending
    removal one. *)
Definition weight (t : ContactForm.Timer) : nat :=
  match ContactForm.callback t with
  | ContactForm.FadeOutThenRemove _ => 2
  | ContactForm.RemoveNode _ => 1
  end.

Definition work (q : list ContactForm.Timer) : nat :=
  list_sum (List.map weight q).

Definition step (i : Input) (w : ContactForm.World) : option ContactForm.World :=
  match i with
  | Submit typed => Some (submit typed w)
  | Wait dt =>
      ContactForm.run_until (work (ContactForm.timers w))
                            (ContactForm.now w + dt) w
  end.

Fixpoint play (inputs : list Input) (w : ContactForm.World)
    : option ContactForm.World :=
  match inputs with
  | [] => Some w
  | i :: rest =>
      match step i w with
      | Some w' => play rest w'
      | None => None
      end
  end.

(** What the inputs submitted, in order. *)
Fixpoint submitted (inputs : list Input) : list ContactForm.FormData :=
  match inputs with
  | [] => []
  | Submit typed :: rest => typed :: submitted rest
  | Wait _ :: rest => submitted rest
  end.

(** The node a timer callback closed over. *)
Definition node (t : ContactForm.Timer) : nat :=
  match ContactForm.callback t with
  | ContactForm.FadeOutThenRemove n => n
  | ContactForm.RemoveNode n => n
  end.

(** By [cap] the timer, and the removal a fade-out sets, have fired. *)
Definition capped (cap : N) (t : ContactForm.Timer) : Prop :=
  match ContactForm.callback t with
  | ContactForm.FadeOutThenRemove _ => (ContactForm.due t + 300 <= cap)%N
  | ContactForm.RemoveNode _ => (ContactForm.due t <= cap)%N
  end.

Definition due_le (a b : ContactForm.Timer) : Prop :=
  (ContactForm.due a <= ContactForm.due b)%N.

(** What holds of the page between events, and between timer callbacks: the
    timers are in the order of their due times, none is overdue, each is
    done by [cap], and every node appended to the form has a timer that will
    fade it out or remove it. *)
Record Timed (cap : N) (w : ContactForm.World) : Prop := {
  timers_sorted : StronglySorted due_le (ContactForm.timers w);
  timers_ahead :
    List.Forall (fun t => (ContactForm.now w <= ContactForm.due t)%N)
                (ContactForm.timers w);
  timers_capped : List.Forall (capped cap) (ContactForm.timers w);
  children_timed :
    List.Forall (fun c => List.In (fst c)
                            (List.map node (ContactForm.timers w)))
                (ContactForm.children w)
}.

(** Between events every banner is at most 3300 units from its removal. *)
Definition Settled (w : ContactForm.World) : Prop :=
  Timed (ContactForm.now w + 3300) w.

End FormSession.

(** * Properties *)

(** ** Strings *)

Lemma append_cons (c : ascii) (a b : string) :
  String c a ++ b = String c (a ++ b).
Proof. reflexivity. Qed.

Lemma append_assoc (a b c : string) : (a ++ b) ++ c = a ++ b ++ c.
Proof.
  induction a as [|x a IH]; [reflexivity|].
  now rewrite !append_cons, IH.
Qed.

Lemma append_nil_r (a : string) : a ++ "" = a.
Proof.
  induction a as [|x a IH]; [reflexivity|].
  now rewrite append_cons, IH.
Qed.

Lemma substring_of_refl (s : string) : JS.substring_of s s.
Proof. exists "", "". now rewrite append_nil_r. Qed.

Lemma substring_of_here (s post : string) : JS.substring_of s (s ++ post).
Proof. now exists "", post. Qed.

Lemma substring_of_later (s u t : string) :
  JS.substring_of s t -> JS.substring_of s (u ++ t).
Proof.
  intros (pre & post & ->). exists (u ++ pre), post.
  now rewrite append_assoc.
Qed.

Create HintDb substr.
#[local] Hint Resolve substring_of_refl substring_of_here substring_of_later
  : substr.

Lemma prefix_append (s post : string) : String.prefix s (s ++ post) = true.
Proof.
  induction s as [|c s IH].
  - now destruct post.
  - rewrite append_cons. simpl.
    destruct (ascii_dec c c) as [_|ne]; [exact IH | now elim ne].
Qed.

(** [includes] finds every occurrence: a needle it misses does not occur. *)
Lemma includes_complete (s t : string) :
  JS.substring_of s t -> JS.includes s t = true.
Proof.
  intros (pre & post & ->).
  induction pre as [|c pre IH].
  - change ("" ++ s ++ post) with (s ++ post).
    pose proof (prefix_append s post) as Hp.
    destruct (s ++ post) as [|a r]; [exact Hp|].
    change (String.prefix s (String a r) || JS.includes s r = true).
    now rewrite Hp.
  - rewrite append_cons.
    change (String.prefix s (String c (pre ++ s ++ post))
            || JS.includes s (pre ++ s ++ post) = true).
    rewrite IH. apply orb_true_r.
Qed.

Lemma join_cons (x : string) (l : list string) :
  JS.join "" (x :: l) = x ++ JS.join "" l.
Proof. destruct l; simpl; [now rewrite append_nil_r | reflexivity]. Qed.

Lemma join_app (l1 l2 : list string) :
  JS.join "" (l1 ++ l2)%list = JS.join "" l1 ++ JS.join "" l2.
Proof.
  induction l1 as [|x l1 IH].
  - reflexivity.
  - change ((x :: l1) ++ l2)%list with (x :: (l1 ++ l2))%list.
    now rewrite !join_cons, IH, append_assoc.
Qed.

Lemma substring_of_join (f : string -> string) (l : list string) :
  (forall x, JS.substring_of x (f x)) ->
  List.Forall (fun x => JS.substring_of x (JS.join "" (List.map f l))) l.
Proof.
  intros Hf. induction l as [|x l IH]; constructor.
  - change (List.map f (x :: l)) with (f x :: List.map f l).
    rewrite join_cons. destruct (Hf x) as (pre & post & ->).
    exists pre, (post ++ JS.join "" (List.map f l)).
    now rewrite !append_assoc.
  - change (List.map f (x :: l)) with (f x :: List.map f l).
    rewrite join_cons.
    eapply List.Forall_impl; [|exact IH].
    intros a Ha. now apply substring_of_later.
Qed.
(** The three templates have the lengths of the source's template literals
    (215, 695 and 287 characters around empty fields, 35 around a tag). *)
Example Skill_template_length :
  String.length (toHTML (Skill.new "" "" "")) = 215%nat.
Proof. reflexivity. Qed.

Example PortfolioItem_template_length :
  String.length (toHTML (PortfolioItem.new "" "" [] None)) = 695%nat
  /\ String.length (PortfolioItem.tagHTML "") = 35%nat.
Proof. split; reflexivity. Qed.

Example TimelineItem_template_length :
  String.length (toHTML (TimelineItem.new "" "" "" "")) = 287%nat.
Proof. reflexivity. Qed.

(** ** Records *)





(** [setData] would show in the log: a heap on which it has run no longer
    counts as constructed once. *)
Lemma setData_is_logged {D} (args : list D) (ref : nat) (d : D) (h : Heap.t D) :
  Heap.constructed_once args h ->
  ~ Heap.constructed_once args (Heap.setData ref d h).
Proof.
  intros [Hlog _] [Hlog' _]. simpl in Hlog'. rewrite Hlog in Hlog'.
  apply (f_equal (@List.length nat)) in Hlog'.
  rewrite List.length_app, List.length_seq in Hlog'. simpl in Hlog'. lia.
Qed.


Example init_with_two_skills :
  let a := {| Skill.name := "UI/UX Design"; Skill.description := "Figma.";
              Skill.icon := "*" |} in
  let b := {| Skill.name := "DevOps & Cloud"; Skill.description := "AWS.";
              Skill.icon := "+" |} in
  option_map (fun page =>
      (Heap.assigned (PortfolioApp.skills page),
       Heap.getData 1 (PortfolioApp.skills page),
       Heap.getData 2 (PortfolioApp.skills page)))
    (PortfolioApp.init [a; b] [] [] "" "" "")
  = Some ([0%nat; 1%nat], Some b, None).
Proof. vm_compute. reflexivity. Qed.

(** C10, as stated, fails on the [image] field of a portfolio item: the
    markup has a fixed placeholder drawing and never mentions the image. *)
Lemma PortfolioItem_image_not_in_markup :
  ~ JS.substring_of "zebra.png"
      (toHTML (PortfolioItem.new "Weathify" "A web app." ["PHP"] (Some "zebra.png"))).
Proof.
  intros H. apply includes_complete in H. vm_compute in H. discriminate H.
Qed.

Ltac embeds := cbv [toHTML Skill.to_html PortfolioItem.to_html
                    TimelineItem.to_html Skill.render PortfolioItem.render
                    TimelineItem.render];
               eauto 20 with substr.

(** C10 (amended): [toHTML] copies every field it renders into the markup
    unchanged, with no escaping: a skill's icon, name and description, a
    portfolio item's title, description and each of its tags, and a timeline
    item's date, title, company and description all occur in the output as
    they are, whatever characters they hold.  A portfolio item's [image] is
    not rendered: the markup is the same for every image. *)
Theorem toHTML_embeds_fields_verbatim :
  (forall s : Skill.t,
     let d := Model.data s in
     JS.substring_of (Skill.icon d) (toHTML s)
     /\ JS.substring_of (Skill.name d) (toHTML s)
     /\ JS.substring_of (Skill.description d) (toHTML s))
  /\ (forall p : PortfolioItem.t,
        let d := Model.data p in
        JS.substring_of (PortfolioItem.title d) (toHTML p)
        /\ JS.substring_of (PortfolioItem.description d) (toHTML p)
        /\ List.Forall (fun tag => JS.substring_of tag (toHTML p))
                       (PortfolioItem.tags d))
  /\ (forall i : TimelineItem.t,
        let d := Model.data i in
        JS.substring_of (TimelineItem.date d) (toHTML i)
        /\ JS.substring_of (TimelineItem.title d) (toHTML i)
        /\ JS.substring_of (TimelineItem.company d) (toHTML i)
        /\ JS.substring_of (TimelineItem.description d) (toHTML i))
  /\ (forall title description tags image image',
        toHTML (PortfolioItem.new title description tags image)
        = toHTML (PortfolioItem.new title description tags image')).
Proof.
  split; [|split; [|split]].
  - intros s d. subst d. repeat split; embeds.
  - intros p d. subst d. repeat split; [embeds | embeds |].
    pose proof (substring_of_join PortfolioItem.tagHTML
                  (PortfolioItem.tags (Model.data p))) as Htags.
    eapply List.Forall_impl; [|apply Htags].
    + intros tag Htag.
      change (JS.join "" (List.map PortfolioItem.tagHTML
                (PortfolioItem.tags (Model.data p))))
        with (PortfolioItem.tagsHTML (Model.data p)) in Htag.
      destruct Htag as (pre & post & E).
      cbv [toHTML PortfolioItem.to_html PortfolioItem.render].
      rewrite E, !append_assoc. eauto 20 with substr.
    + intros x. unfold PortfolioItem.tagHTML. eauto with substr.
  - intros i d. subst d. repeat split; embeds.
  - reflexivity.
Qed.

(** ** Section renderers *)

Lemma render_innerHTML {R} `{ToHTML R} (c : string) (l : list R) :
  Grid.innerHTML (Grid.render (Grid.make c l))
  = JS.join "" (List.map toHTML l).
Proof. reflexivity. Qed.

(** C5: what a section renderer writes is the concatenation of the records'
    fragments in the order of the list: nothing for the empty list, the
    record's own fragment for a single record, and for two lists one after
    the other the markup of the first followed by the markup of the second.
    Whatever the container held before does not matter. *)
Theorem render_concatenates_fragments_in_order
    {R : Type} `{ToHTML R} (c c1 c2 : string) (x : R) (xs ys : list R) :
  Grid.innerHTML (Grid.render (Grid.make c [])) = ""
  /\ Grid.innerHTML (Grid.render (Grid.make c [x])) = toHTML x
  /\ Grid.innerHTML (Grid.render (Grid.make c (xs ++ ys)%list))
     = Grid.innerHTML (Grid.render (Grid.make c1 xs))
       ++ Grid.innerHTML (Grid.render (Grid.make c2 ys))
  /\ Grid.innerHTML (Grid.render (Grid.make c (xs ++ x :: ys)%list))
     = Grid.innerHTML (Grid.render (Grid.make c1 xs))
       ++ toHTML x ++ Grid.innerHTML (Grid.render (Grid.make c2 ys)).
Proof.
  rewrite !render_innerHTML. repeat split.
  - now rewrite List.map_app, join_app.
  - rewrite List.map_app, join_app.
    change (List.map toHTML (x :: ys)) with (toHTML x :: List.map toHTML ys).
    now rewrite join_cons.
Qed.

(** The three renderers of the page are instances of it. *)
Corollary grids_render_in_order (skills : Grid.t Skill.t)
    (projects : Grid.t PortfolioItem.t) (entries : Grid.t TimelineItem.t) :
  Grid.innerHTML (SkillsGrid.render skills)
  = JS.join "" (List.map toHTML (Grid.items skills))
  /\ Grid.innerHTML (PortfolioGrid.render projects)
     = JS.join "" (List.map toHTML (Grid.items projects))
  /\ Grid.innerHTML (Timeline.render entries)
     = JS.join "" (List.map toHTML (Grid.items entries)).
Proof. repeat split. Qed.

(** ** Navigation: header visibility on scroll *)

Lemma Qltb_lt (x y : Q) : Qltb x y = true <-> (x < y)%Q.
Proof.
  unfold Qltb. rewrite negb_true_iff. split.
  - intros E. apply Qnot_le_lt. intros L.
    apply Qle_bool_iff in L. congruence.
  - intros L. destruct (Qle_bool y x) eqn:E; [|reflexivity].
    apply Qle_bool_iff in E. now apply Qle_not_lt in E.
Qed.

Lemma onScroll_nonpositive (y : Q) (s : Navigation.State) :
  (y <= 0)%Q -> Navigation.onScroll y s = Navigation.set_transform Navigation.shown s.
Proof.
  intros L. unfold Navigation.onScroll.
  apply Qle_bool_iff in L. now rewrite L.
Qed.

Lemma onScroll_positive (y : Q) (s : Navigation.State) :
  (0 < y)%Q ->
  Navigation.lastScroll (Navigation.onScroll y s) = y
  /\ Navigation.transform (Navigation.onScroll y s)
     = if Qltb (Navigation.lastScroll s) y && Qltb 100 y
       then Navigation.hidden else Navigation.shown.
Proof.
  intros L. unfold Navigation.onScroll.
  destruct (Qle_bool y 0) eqn:E.
  - apply Qle_bool_iff in E. now apply Qle_not_lt in E.
  - destruct (Qltb (Navigation.lastScroll s) y && Qltb 100 y); split; reflexivity.
Qed.

(** C1: from a previous offset of 0, the offsets 0, 50, 150, 120 leave the
    header shown, shown, hidden and shown again, whatever its transform and
    the menu were when the listener was registered. *)
Theorem header_states_for_0_50_150_120 (transform0 : string)
    (menu0 : JS.classList) :
  Navigation.scroll_trace [0; 50; 150; 120]%Q (Navigation.init transform0 menu0)
  = [Navigation.shown; Navigation.shown; Navigation.hidden; Navigation.shown].
Proof. reflexivity. Qed.

(** C2, as stated, fails: an offset of 150 is above zero, yet scrolling down
    to it from 0 hides the header. *)
Lemma header_hidden_at_offset_above_zero :
  ~ (forall (y : Q) (s : Navigation.State),
       (0 <= y)%Q ->
       Navigation.transform (Navigation.onScroll y s) = Navigation.shown).
Proof.
  intros H.
  specialize (H 150%Q (Navigation.init Navigation.shown [])).
  assert (L : (0 <= 150)%Q) by (apply Qle_bool_iff; reflexivity).
  specialize (H L). vm_compute in H. discriminate H.
Qed.

(** C2 (amended): for every scroll event whose new offset is at or below
    zero, the handler sets the header's transform to [translateY(0)],
    whatever the previous offset and the previous transform were. *)
Theorem header_shown_at_offset_not_above_zero (y : Q) (s : Navigation.State) :
  (y <= 0)%Q ->
  Navigation.transform (Navigation.onScroll y s) = Navigation.shown.
Proof. intros L. now rewrite onScroll_nonpositive. Qed.

Lemma header_shown_at_offset_not_above_zero_witness :
  (0 <= 0)%Q
  /\ Navigation.transform
       (Navigation.onScroll 0
          {| Navigation.transform := Navigation.hidden;
             Navigation.lastScroll := 150;
             Navigation.menu := ["nav-menu"];
             Navigation.scrollTo_calls := [] |})
     = Navigation.shown.
Proof.
  split; [apply Qle_refl|].
  apply header_shown_at_offset_not_above_zero. apply Qle_refl.
Defined.

Lemma last_cons {A} (a d : A) (l : list A) :
  List.last (a :: l) d = List.last l a.
Proof.
  revert a d. induction l as [|b l IH]; intros a d; [reflexivity|].
  change (List.last (a :: b :: l) d) with (List.last (b :: l) d).
  now rewrite !IH.
Qed.

Lemma scroll_run_lastScroll (offsets : list Q) (s : Navigation.State) :
  Navigation.lastScroll (Navigation.scroll_run offsets s)
  = Navigation.last_positive offsets (Navigation.lastScroll s).
Proof.
  revert s. induction offsets as [|y offsets IH]; intros s; [reflexivity|].
  change (Navigation.scroll_run (y :: offsets) s)
    with (Navigation.scroll_run offsets (Navigation.onScroll y s)).
  rewrite IH. unfold Navigation.last_positive. simpl List.filter.
  destruct (Qltb 0 y) eqn:E.
  - apply Qltb_lt in E. rewrite last_cons.
    now destruct (onScroll_positive y s E) as [-> _].
  - assert (L : (y <= 0)%Q).
    { apply Qnot_lt_le. intros L. apply Qltb_lt in L. congruence. }
    now rewrite onScroll_nonpositive.
Qed.

(** C9: a scroll event with an offset at or below zero shows the header and
    returns before [lastScroll] is assigned: the stored offset (and the rest
    of the state) is as before, so the next event is handled exactly as if
    this one had not happened.  Over a whole run, the stored offset is the
    last offset above zero seen so far (the initial one while there is none),
    never an offset at or below zero that came after it. *)
Theorem nonpositive_scroll_keeps_lastScroll (y : Q) (s : Navigation.State) :
  (y <= 0)%Q ->
  Navigation.transform (Navigation.onScroll y s) = Navigation.shown
  /\ Navigation.lastScroll (Navigation.onScroll y s) = Navigation.lastScroll s
  /\ (forall y', (0 < y')%Q ->
        Navigation.onScroll y' (Navigation.onScroll y s)
        = Navigation.onScroll y' s)
  /\ (forall before,
        Navigation.lastScroll
          (Navigation.scroll_run (before ++ [y])%list s)
        = Navigation.last_positive before (Navigation.lastScroll s)).
Proof.
  intros L. rewrite (onScroll_nonpositive y s L).
  split; [reflexivity|]. split; [reflexivity|]. split.
  - intros y' L'. unfold Navigation.onScroll.
    destruct (Qle_bool y' 0); [reflexivity|].
    simpl. destruct (_ && _); reflexivity.
  - intros before. rewrite scroll_run_lastScroll.
    unfold Navigation.last_positive. rewrite List.filter_app. simpl.
    assert (E : Qltb 0 y = false).
    { destruct (Qltb 0 y) eqn:E; [|reflexivity].
      apply Qltb_lt in E. now apply Qle_not_lt in L. }
    rewrite E. now rewrite List.app_nil_r.
Qed.

Lemma nonpositive_scroll_keeps_lastScroll_witness :
  let s := Navigation.scroll_run [150%Q] (Navigation.init "" []) in
  (0 <= 0)%Q
  /\ Navigation.lastScroll (Navigation.onScroll 0 s) = 150%Q
  /\ Navigation.transform (Navigation.onScroll 120 (Navigation.onScroll 0 s))
     = Navigation.shown.
Proof.
  intros s.
  destruct (nonpositive_scroll_keeps_lastScroll 0 s (Qle_refl 0))
    as (_ & E & Hnext & _).
  split; [apply Qle_refl|]. split.
  - rewrite E. reflexivity.
  - rewrite Hnext; reflexivity.
Defined.

(** Had the early return stored the offset, the header would hide here. *)
Example scroll_150_0_120 :
  Navigation.scroll_trace [150; 0; 120]%Q (Navigation.init "" [])
  = [Navigation.hidden; Navigation.shown; Navigation.shown]
  /\ Navigation.transform
       (Navigation.onScroll 120
          (Navigation.set_lastScroll 0
             (Navigation.scroll_run [150; 0]%Q (Navigation.init "" []))))
     = Navigation.hidden.
Proof. split; reflexivity. Qed.

(** ** Navigation: link clicks *)

Lemma has_class_In (c : string) (l : JS.classList) :
  JS.has_class c l = true <-> List.In c l.
Proof.
  unfold JS.has_class. rewrite List.existsb_exists. split.
  - intros (x & Hx & E). apply String.eqb_eq in E. now subst.
  - intros Hc. exists c. split; [assumption | apply String.eqb_refl].
Qed.

Lemma classList_remove_In (c x : string) (l : JS.classList) :
  List.In x (JS.classList_remove c l) <-> List.In x l /\ x <> c.
Proof.
  unfold JS.classList_remove. rewrite List.filter_In, negb_true_iff.
  rewrite String.eqb_neq. intuition congruence.
Qed.

(** C7: a click on a navigation link whose [href] selects an element of the
    page cancels the default navigation, asks the window for one smooth
    scroll to the target's [offsetTop] minus 80, and leaves the menu without
    the class [active] (its other classes, the header's transform and the
    stored scroll offset are untouched). *)
Theorem link_click_scrolls_and_closes_menu
    (doc : Navigation.Document) (href : string) (target : Navigation.Target)
    (e : Event) (s : Navigation.State) :
  doc href = Navigation.Found target ->
  exists s',
    Navigation.onLinkClick doc href e s
    = ({| defaultPrevented := true |}, Navigation.Returned s')
    /\ Navigation.scrollTo_calls s'
       = (Navigation.scrollTo_calls s
          ++ [{| Navigation.top := Navigation.offsetTop target - 80;
                 Navigation.behavior := "smooth" |}])%list
    /\ JS.has_class "active" (Navigation.menu s') = false
    /\ (forall c, c <> "active" ->
          (List.In c (Navigation.menu s') <-> List.In c (Navigation.menu s)))
    /\ Navigation.transform s' = Navigation.transform s
    /\ Navigation.lastScroll s' = Navigation.lastScroll s.
Proof.
  intros Hq. unfold Navigation.onLinkClick. rewrite Hq.
  eexists. split; [reflexivity|]. simpl.
  split; [reflexivity|]. split; [|split; [|split; reflexivity]].
  - destruct (JS.has_class "active" _) eqn:E; [|reflexivity].
    apply has_class_In, classList_remove_In in E. now destruct E.
  - intros c Hc. rewrite classList_remove_In. tauto.
Qed.

Lemma link_click_scrolls_and_closes_menu_witness :
  let doc := fun sel : string =>
    if String.eqb sel "#skills" then Navigation.Found {| Navigation.offsetTop := 640 |}
    else Navigation.Null in
  let s := Navigation.onToggle (Navigation.init "" ["nav-menu"]) in
  doc "#skills" = Navigation.Found {| Navigation.offsetTop := 640 |}
  /\ Navigation.menu s = ["nav-menu"; "active"]
  /\ exists s',
       Navigation.onLinkClick doc "#skills" {| defaultPrevented := false |} s
       = ({| defaultPrevented := true |}, Navigation.Returned s')
       /\ Navigation.scrollTo_calls s'
          = [{| Navigation.top := 560; Navigation.behavior := "smooth" |}]
       /\ Navigation.menu s' = ["nav-menu"].
Proof.
  intros doc s. split; [reflexivity|]. split; [reflexivity|].
  destruct (link_click_scrolls_and_closes_menu doc "#skills"
              {| Navigation.offsetTop := 640 |}
              {| defaultPrevented := false |} s eq_refl)
    as (s' & E & Hcalls & _).
  exists s'. split; [exact E|]. split; [exact Hcalls|].
  injection E as <-. reflexivity.
Defined.

(** Without a matching element the click only cancels the navigation. *)
Lemma link_click_without_target (doc : Navigation.Document) (href : string)
    (e : Event) (s : Navigation.State) :
  doc href = Navigation.Null ->
  Navigation.onLinkClick doc href e s
  = ({| defaultPrevented := true |}, Navigation.Returned s).
Proof. intros Hq. unfold Navigation.onLinkClick. now rewrite Hq. Qed.

(** ** Scroll animations *)

Lemma classList_add_has (c : string) (l : JS.classList) :
  JS.has_class c (JS.classList_add c l) = true.
Proof.
  unfold JS.classList_add. destruct (JS.has_class c l) eqn:E; [exact E|].
  apply has_class_In, List.in_or_app. right. now left.
Qed.

Lemma classList_add_idem (c : string) (l : JS.classList) :
  JS.has_class c l = true -> JS.classList_add c l = l.
Proof. intros E. unfold JS.classList_add. now rewrite E. Qed.

Lemma callback_cons (entry : ScrollAnimations.Entry)
    (entries : list ScrollAnimations.Entry) (dom : gmap nat JS.classList) :
  ScrollAnimations.callback (entry :: entries) dom
  = ScrollAnimations.callback entries
      (if ScrollAnimations.isIntersecting entry
       then alter (JS.classList_add "fade-in") (ScrollAnimations.target entry) dom
       else dom).
Proof. reflexivity. Qed.

Lemma observe_cons (entries : list ScrollAnimations.Entry)
    (batches : list (list ScrollAnimations.Entry)) (dom : gmap nat JS.classList) :
  ScrollAnimations.observe (entries :: batches) dom
  = ScrollAnimations.observe batches (ScrollAnimations.callback entries dom).
Proof. reflexivity. Qed.

Lemma observe_app (b1 b2 : list (list ScrollAnimations.Entry))
    (dom : gmap nat JS.classList) :
  ScrollAnimations.observe (b1 ++ b2)%list dom
  = ScrollAnimations.observe b2 (ScrollAnimations.observe b1 dom).
Proof. unfold ScrollAnimations.observe. apply List.fold_left_app. Qed.

(** One entry never changes the class list of a marked element. *)
Lemma entry_keeps_marked (entry : ScrollAnimations.Entry) (el : nat)
    (cl : JS.classList) (dom : gmap nat JS.classList) :
  dom !! el = Some cl -> JS.has_class "fade-in" cl = true ->
  (if ScrollAnimations.isIntersecting entry
   then alter (JS.classList_add "fade-in") (ScrollAnimations.target entry) dom
   else dom) !! el = Some cl.
Proof.
  intros Hel Hcl. destruct (ScrollAnimations.isIntersecting entry); [|exact Hel].
  destruct (decide (ScrollAnimations.target entry = el)) as [->|Hne].
  - rewrite lookup_alter_eq, Hel. simpl. now rewrite classList_add_idem.
  - now rewrite lookup_alter_ne.
Qed.

Lemma callback_keeps_marked (entries : list ScrollAnimations.Entry) (el : nat)
    (cl : JS.classList) (dom : gmap nat JS.classList) :
  dom !! el = Some cl -> JS.has_class "fade-in" cl = true ->
  ScrollAnimations.callback entries dom !! el = Some cl.
Proof.
  revert dom. induction entries as [|entry entries IH]; intros dom Hel Hcl.
  - exact Hel.
  - rewrite callback_cons. apply IH; [|exact Hcl].
    now apply entry_keeps_marked.
Qed.

Lemma observe_keeps_marked (batches : list (list ScrollAnimations.Entry))
    (el : nat) (cl : JS.classList) (dom : gmap nat JS.classList) :
  dom !! el = Some cl -> JS.has_class "fade-in" cl = true ->
  ScrollAnimations.observe batches dom !! el = Some cl.
Proof.
  revert dom. induction batches as [|entries batches IH]; intros dom Hel Hcl.
  - exact Hel.
  - rewrite observe_cons. apply IH; [|exact Hcl].
    now apply callback_keeps_marked.
Qed.

Lemma revealed_lookup (el : nat) (dom : gmap nat JS.classList) :
  ScrollAnimations.revealed el dom = true <->
  exists cl, dom !! el = Some cl /\ JS.has_class "fade-in" cl = true.
Proof.
  unfold ScrollAnimations.revealed. destruct (dom !! el) as [cl|].
  - split; [intros E; now exists cl | now intros (cl' & [= <-] & E)].
  - split; [discriminate | now intros (cl' & [=] & _)].
Qed.

(** X6: an intersecting entry for an observed element marks it, wherever
    in the batch it comes. *)
Lemma intersecting_entry_reveals (el : nat) (pre post : list ScrollAnimations.Entry)
    (dom : gmap nat JS.classList) :
  is_Some (dom !! el) ->
  ScrollAnimations.revealed el
    (ScrollAnimations.callback
       (pre ++ {| ScrollAnimations.target := el;
                  ScrollAnimations.isIntersecting := true |} :: post)%list dom)
  = true.
Proof.
  intros Hel. unfold ScrollAnimations.callback at 1.
  rewrite List.fold_left_app.
  fold (ScrollAnimations.callback pre dom).
  set (dom1 := ScrollAnimations.callback pre dom).
  assert (Hel1 : is_Some (dom1 !! el)).
  { subst dom1. clear post. revert dom Hel.
    induction pre as [|entry pre IH]; intros dom Hel; [exact Hel|].
    rewrite callback_cons. apply IH.
    destruct (ScrollAnimations.isIntersecting entry); [|exact Hel].
    destruct (decide (ScrollAnimations.target entry = el)) as [->|Hne].
    - rewrite lookup_alter_eq. destruct Hel as [cl ->]. now eexists.
    - now rewrite lookup_alter_ne. }
  destruct Hel1 as [cl Hcl].
  change (ScrollAnimations.revealed el
            (ScrollAnimations.callback post
               (alter (JS.classList_add "fade-in") el dom1)) = true).
  apply revealed_lookup. exists (JS.classList_add "fade-in" cl). split.
  - apply callback_keeps_marked; [|apply classList_add_has].
    now rewrite lookup_alter_eq, Hcl.
  - apply classList_add_has.
Qed.

(** C6: once a section carries the marker class [fade-in], no later
    intersection event takes it away: after any further batches of entries
    the element is still marked, and its class list is exactly what it was,
    so the class is added at most once and the later entries, intersecting
    or not, change nothing for it.  An entry that reports the element
    leaving the viewport changes no element at all. *)
Theorem reveal_is_permanent (el : nat)
    (before after : list (list ScrollAnimations.Entry))
    (dom : gmap nat JS.classList) :
  ScrollAnimations.revealed el (ScrollAnimations.observe before dom) = true ->
  ScrollAnimations.revealed el
    (ScrollAnimations.observe (before ++ after)%list dom) = true
  /\ ScrollAnimations.observe (before ++ after)%list dom !! el
     = ScrollAnimations.observe before dom !! el
  /\ (forall other d,
        ScrollAnimations.callback
          [{| ScrollAnimations.target := other;
              ScrollAnimations.isIntersecting := false |}] d = d).
Proof.
  intros Hrev. apply revealed_lookup in Hrev as (cl & Hel & Hcl).
  rewrite observe_app.
  pose proof (observe_keeps_marked after el cl _ Hel Hcl) as Hafter.
  split; [|split].
  - apply revealed_lookup. now exists cl.
  - now rewrite Hafter, Hel.
  - reflexivity.
Qed.

Lemma reveal_is_permanent_witness :
  let dom : gmap nat JS.classList := {[ 1%nat := ["section"] ]} in
  let enter := {| ScrollAnimations.target := 1%nat;
                  ScrollAnimations.isIntersecting := true |} in
  let leave := {| ScrollAnimations.target := 1%nat;
                  ScrollAnimations.isIntersecting := false |} in
  ScrollAnimations.revealed 1 (ScrollAnimations.observe [[enter]] dom) = true
  /\ ScrollAnimations.revealed 1
       (ScrollAnimations.observe ([[enter]] ++ [[leave]; [enter]])%list dom)
     = true.
Proof.
  intros dom enter leave.
  assert (H : ScrollAnimations.revealed 1
                (ScrollAnimations.observe [[enter]] dom) = true)
    by (vm_compute; reflexivity).
  split; [exact H|].
  exact (proj1 (reveal_is_permanent 1%nat [[enter]] [[leave]; [enter]] dom H)).
Defined.

Example reveal_trace :
  let dom : gmap nat JS.classList := {[ 1%nat := ["section"] ]} in
  let entry b := {| ScrollAnimations.target := 1%nat;
                    ScrollAnimations.isIntersecting := b |} in
  ScrollAnimations.observe [[entry false]] dom !! 1%nat = Some ["section"]
  /\ ScrollAnimations.observe [[entry true]; [entry false]; [entry true]] dom
       !! 1%nat = Some ["section"; "fade-in"].
Proof. split; vm_compute; reflexivity. Qed.

(** ** Smooth-scroll easing *)

Section Halves.

Local Open Scope Q_scope.

Variables t d : Q.
Hypothesis d_pos : 0 < d.



End Halves.












(** The doubles the source computes, rounding included. *)
Example ease_samples :
  SmoothScroll.ease 0 10 8 4 = 10%float
  /\ SmoothScroll.ease 1 10 8 4 = 11%float
  /\ SmoothScroll.ease 2 10 8 4 = 14%float
  /\ SmoothScroll.ease 3 10 8 4 = 17%float
  /\ SmoothScroll.ease 4 10 8 4 = 18%float
  /\ SmoothScroll.exact_run 3 10 8 4 = true
  /\ SmoothScroll.ease 1 0 1 3 = 0x1.c71c71c71c71cp-3%float
  /\ SmoothScroll.exact_run 1 0 1 3 = false.
Proof. repeat split; vm_compute; reflexivity. Qed.

(** ** Contact form *)

Lemma run_until_idle (fuel : nat) (until : N) (w : ContactForm.World) :
  ContactForm.timers w = [] ->
  ContactForm.run_until fuel until w
  = Some (ContactForm.set_clock (N.max (ContactForm.now w) until) [] w).
Proof. intros E. destruct fuel; simpl; now rewrite E. Qed.

Lemma run_until_wait (fuel : nat) (until : N) (w : ContactForm.World)
    (t : ContactForm.Timer) (q : list ContactForm.Timer) :
  ContactForm.timers w = t :: q -> (until < ContactForm.due t)%N ->
  ContactForm.run_until fuel until w
  = Some (ContactForm.set_clock (N.max (ContactForm.now w) until) (t :: q) w).
Proof.
  intros E L. apply N.leb_gt in L. destruct fuel; simpl; now rewrite E, L.
Qed.

Lemma run_until_fire (fuel : nat) (until : N) (w : ContactForm.World)
    (t : ContactForm.Timer) (q : list ContactForm.Timer) :
  ContactForm.timers w = t :: q -> (ContactForm.due t <= until)%N ->
  ContactForm.run_until (S fuel) until w
  = ContactForm.run_until fuel until
      (ContactForm.fire (ContactForm.callback t)
         (ContactForm.set_clock
            (N.max (ContactForm.now w) (ContactForm.due t)) q w)).
Proof. intros E L. apply N.leb_le in L. simpl. now rewrite E, L. Qed.
Lemma submit_then_wait (t0 : N) (typed defaults : ContactForm.FormData)
    (log0 : list (string * ContactForm.FormData)) (node0 : nat) (e : Event)
    (fuel : nat) (dt : N) :
  let w1 := snd (ContactForm.handleSubmit e
                   (ContactForm.filled t0 typed defaults log0 node0)) in
  exists w',
    ContactForm.run_until (S (S fuel)) (t0 + dt) w1 = Some w'
    /\ ContactForm.now w' = (t0 + dt)%N
    /\ ContactForm.values w' = defaults
    /\ ContactForm.console w' = (log0 ++ [("Form submitted:", typed)])%list
    /\ ContactForm.children w'
       = if (dt <? 3000)%N then [(node0, ContactForm.banner "fadeIn 0.3s ease")]
         else if (dt <? 3300)%N
              then [(node0, ContactForm.banner "fadeOut 0.3s ease")]
              else [].
Proof.
  intros w1.
  set (fade := {| ContactForm.due := t0 + 3000;
                  ContactForm.callback := ContactForm.FadeOutThenRemove node0 |}).
  set (remove := {| ContactForm.due := t0 + 3000 + 300;
                    ContactForm.callback := ContactForm.RemoveNode node0 |}).
  assert (Hq1 : ContactForm.timers w1 = [fade]) by reflexivity.
  destruct defaults as [dn de dm], typed as [tn te tm].
  destruct (N.ltb_spec dt 3000) as [L1|L1].
  { eexists. split.
    - apply (run_until_wait _ _ _ fade [] Hq1). simpl. lia.
    - simpl. repeat split. lia. }
  rewrite (run_until_fire _ _ _ fade [] Hq1) by (simpl; lia).
  set (w2 := ContactForm.fire _ _).
  assert (Hq2 : ContactForm.timers w2 = [remove]).
  { subst w2. simpl. rewrite N.max_r by lia. reflexivity. }
  assert (Hc2 : ContactForm.children w2
                = [(node0, ContactForm.banner "fadeOut 0.3s ease")]).
  { subst w2. simpl. now rewrite Nat.eqb_refl. }
  destruct (N.ltb_spec dt 3300) as [L2|L2].
  { eexists. split.
    - apply (run_until_wait _ _ _ remove [] Hq2). simpl. lia.
    - simpl. repeat split; [lia | exact Hc2]. }
  rewrite (run_until_fire _ _ _ remove [] Hq2) by (simpl; lia).
  eexists. split.
  - apply run_until_idle. reflexivity.
  - split; [simpl; lia|]. split; [reflexivity|]. split; [reflexivity|].
    cbn [ContactForm.children ContactForm.set_clock ContactForm.fire
         ContactForm.callback remove ContactForm.set_children].
    rewrite Hc2. simpl. now rewrite Nat.eqb_refl.
Qed.

(** C3, as stated, fails on the order of reset and banner: the controls are
    reset inside the submit handler, while the banner has only just been
    appended; they do not keep the submitted values until the banner's 3000
    units are over. *)
Lemma form_is_reset_while_banner_is_shown :
  let typed := {| ContactForm.name := "A"; ContactForm.email := "b@x.com";
                  ContactForm.message := "hi" |} in
  let blank := {| ContactForm.name := ""; ContactForm.email := "";
                  ContactForm.message := "" |} in
  let w1 := snd (ContactForm.handleSubmit {| defaultPrevented := false |}
                   (ContactForm.filled 0 typed blank [] 0)) in
  ~ (forall dt w',
       (dt < 3000)%N ->
       ContactForm.run_until 2 dt w1 = Some w' ->
       ContactForm.values w' = typed).
Proof.
  intros typed blank w1 H.
  specialize (H 0%N _ eq_refl eq_refl).
  vm_compute in H. discriminate H.
Qed.

(** C3 (amended): submitting the form with name "A", email "b@x.com" and
    message "hi" cancels the default navigation, logs the three values (and
    puts them nowhere else), appends exactly one success banner and resets
    the three controls to their defaults at once, in the handler itself.
    From then on the controls stay reset and the log stays as it is; the
    banner is shown fading in for 3000 time units, fades out for 300 more,
    and is gone from 3300 time units after the submit on. *)
Theorem contact_form_submit (t0 : N) (defaults : ContactForm.FormData)
    (log0 : list (string * ContactForm.FormData)) (node0 : nat) (e : Event)
    (fuel : nat) (dt : N) :
  let typed := {| ContactForm.name := "A"; ContactForm.email := "b@x.com";
                  ContactForm.message := "hi" |} in
  let r := ContactForm.handleSubmit e
             (ContactForm.filled t0 typed defaults log0 node0) in
  defaultPrevented (fst r) = true
  /\ ContactForm.console (snd r) = (log0 ++ [("Form submitted:", typed)])%list
  /\ ContactForm.values (snd r) = defaults
  /\ ContactForm.children (snd r)
     = [(node0, ContactForm.banner "fadeIn 0.3s ease")]
  /\ exists w',
       ContactForm.run_until (S (S fuel)) (t0 + dt) (snd r) = Some w'
       /\ ContactForm.now w' = (t0 + dt)%N
       /\ ContactForm.values w' = defaults
       /\ ContactForm.console w' = (log0 ++ [("Form submitted:", typed)])%list
       /\ ContactForm.children w'
          = if (dt <? 3000)%N
            then [(node0, ContactForm.banner "fadeIn 0.3s ease")]
            else if (dt <? 3300)%N
                 then [(node0, ContactForm.banner "fadeOut 0.3s ease")]
                 else [].
Proof.
  intros typed r.
  split; [reflexivity|]. split; [reflexivity|].
  split; [now destruct defaults|]. split; [reflexivity|].
  exact (submit_then_wait t0 typed defaults log0 node0 e fuel dt).
Qed.

Example contact_form_timeline :
  let typed := {| ContactForm.name := "A"; ContactForm.email := "b@x.com";
                  ContactForm.message := "hi" |} in
  let blank := {| ContactForm.name := ""; ContactForm.email := "";
                  ContactForm.message := "" |} in
  let w1 := snd (ContactForm.handleSubmit {| defaultPrevented := false |}
                   (ContactForm.filled 0 typed blank [] 0)) in
  let shown_at t :=
    option_map (fun w => List.map (fun c => ContactForm.animation
                                               (ContactForm.style (snd c)))
                                  (ContactForm.children w))
               (ContactForm.run_until 2 t w1) in
  shown_at 0%N = Some ["fadeIn 0.3s ease"]
  /\ shown_at 2999%N = Some ["fadeIn 0.3s ease"]
  /\ shown_at 3000%N = Some ["fadeOut 0.3s ease"]
  /\ shown_at 3299%N = Some ["fadeOut 0.3s ease"]
  /\ shown_at 3300%N = Some []
  /\ ContactForm.run_until 1 3300 w1 = None.
Proof. repeat split. Qed.

(** * Further properties *)

(** ** Navigation: direction of scrolling *)

Lemma scroll_trace_cons (y : Q) (offsets : list Q) (s : Navigation.State) :
  Navigation.scroll_trace (y :: offsets) s
  = Navigation.transform (Navigation.onScroll y s)
    :: Navigation.scroll_trace offsets (Navigation.onScroll y s).
Proof. reflexivity. Qed.

Lemma Qltb_ge (x y : Q) : Qltb x y = false <-> (y <= x)%Q.
Proof.
  split; intros H.
  - apply Qnot_lt_le. intros L. apply Qltb_lt in L. congruence.
  - destruct (Qltb x y) eqn:E; [|reflexivity].
    apply Qltb_lt in E. now apply Qle_not_lt in H.
Qed.

(** X1: while the page is scrolled steadily down (every offset above the one
    before, the first above the stored offset), the header is hidden at
    exactly the events whose offset is above 100 and shown at the others. *)
Theorem scrolling_down_hides_header_past_100 (offsets : list Q)
    (s : Navigation.State) :
  StronglySorted Qlt (Navigation.lastScroll s :: offsets) ->
  Navigation.scroll_trace offsets s
  = List.map (fun y => if Qltb 100 y then Navigation.hidden
                       else Navigation.shown) offsets.
Proof.
  revert s. induction offsets as [|y offsets IH]; intros s Hs; [reflexivity|].
  apply StronglySorted_inv in Hs as [Hrest Hlast].
  apply StronglySorted_inv in Hrest as [Hrest Hy].
  apply Forall_cons_iff in Hlast as [Hly Hlast].
  rewrite scroll_trace_cons. simpl List.map.
  destruct (Qlt_le_dec 0 y) as [Hpos|Hneg].
  - destruct (onScroll_positive y s Hpos) as [El Et].
    rewrite Et. apply Qltb_lt in Hly. rewrite Hly. simpl andb.
    f_equal. apply IH. rewrite El. now constructor.
  - rewrite (onScroll_nonpositive y s Hneg).
    assert (E : Qltb 100 y = false).
    { apply Qltb_ge. apply Qle_trans with 0%Q; [exact Hneg | discriminate]. }
    rewrite E. f_equal. apply IH. now constructor.
Qed.

Lemma scrolling_down_hides_header_past_100_witness :
  let s := Navigation.init "" [] in
  StronglySorted Qlt (Navigation.lastScroll s :: [40; 90; 101; 250]%Q)
  /\ Navigation.scroll_trace [40; 90; 101; 250]%Q s
     = [Navigation.shown; Navigation.shown; Navigation.hidden; Navigation.hidden].
Proof.
  intros s.
  assert (Hs : StronglySorted Qlt (Navigation.lastScroll s :: [40; 90; 101; 250]%Q)).
  { repeat (constructor; [|repeat constructor]). constructor. }
  split; [exact Hs|].
  exact (scrolling_down_hides_header_past_100 [40; 90; 101; 250]%Q s Hs).
Defined.

(** X2: while the page is scrolled up or stands still (no offset above the
    one before, the first not above the stored offset), every event shows
    the header, however far down the page is. *)
Theorem scrolling_up_shows_header (offsets : list Q) (s : Navigation.State) :
  StronglySorted (fun a b => (b <= a)%Q) (Navigation.lastScroll s :: offsets) ->
  Navigation.scroll_trace offsets s
  = List.map (fun _ => Navigation.shown) offsets.
Proof.
  revert s. induction offsets as [|y offsets IH]; intros s Hs; [reflexivity|].
  apply StronglySorted_inv in Hs as [Hrest Hlast].
  apply StronglySorted_inv in Hrest as [Hrest Hy].
  apply Forall_cons_iff in Hlast as [Hly Hlast].
  rewrite scroll_trace_cons. simpl List.map.
  destruct (Qlt_le_dec 0 y) as [Hpos|Hneg].
  - destruct (onScroll_positive y s Hpos) as [El Et].
    rewrite Et. apply Qltb_ge in Hly. rewrite Hly. simpl andb.
    f_equal. apply IH. rewrite El. now constructor.
  - rewrite (onScroll_nonpositive y s Hneg).
    f_equal. apply IH. now constructor.
Qed.

Lemma scrolling_up_shows_header_witness :
  let s := Navigation.scroll_run [900%Q] (Navigation.init "" []) in
  StronglySorted (fun a b => (b <= a)%Q)
    (Navigation.lastScroll s :: [700; 700; 350; 0]%Q)
  /\ Navigation.transform s = Navigation.hidden
  /\ Navigation.scroll_trace [700; 700; 350; 0]%Q s
     = [Navigation.shown; Navigation.shown; Navigation.shown; Navigation.shown].
Proof.
  intros s.
  assert (Hs : StronglySorted (fun a b => (b <= a)%Q)
                 (Navigation.lastScroll s :: [700; 700; 350; 0]%Q)).
  { repeat (constructor; [|repeat constructor; discriminate]). constructor. }
  split; [exact Hs|]. split; [reflexivity|].
  exact (scrolling_up_shows_header [700; 700; 350; 0]%Q s Hs).
Defined.

(** X3: whatever the state before, after a scroll event the header is hidden
    only if the event's offset is above 100, and that offset is then the
    stored one: the header is never hidden within the first 100 units of the
    page. *)
Theorem header_hidden_only_past_100 (y : Q) (s : Navigation.State) :
  Navigation.transform (Navigation.onScroll y s) = Navigation.hidden ->
  (100 < y)%Q /\ (Navigation.lastScroll s < y)%Q
  /\ Navigation.lastScroll (Navigation.onScroll y s) = y.
Proof.
  intros Hh. destruct (Qlt_le_dec 0 y) as [Hpos|Hneg].
  - destruct (onScroll_positive y s Hpos) as [El Et].
    rewrite Et in Hh.
    destruct (Qltb (Navigation.lastScroll s) y) eqn:E1;
      destruct (Qltb 100 y) eqn:E2; try discriminate Hh.
    apply Qltb_lt in E1, E2. now repeat split.
  - rewrite (onScroll_nonpositive y s Hneg) in Hh. discriminate Hh.
Qed.

Lemma header_hidden_only_past_100_witness :
  let s := Navigation.init "" [] in
  Navigation.transform (Navigation.onScroll 150 s) = Navigation.hidden
  /\ (100 < 150)%Q
  /\ Navigation.lastScroll (Navigation.onScroll 150 s) = 150%Q.
Proof.
  intros s.
  assert (H : Navigation.transform (Navigation.onScroll 150 s)
              = Navigation.hidden) by reflexivity.
  destruct (header_hidden_only_past_100 150 s H) as (L & _ & E).
  split; [exact H|]. split; [exact L | exact E].
Defined.

(** ** Navigation: menu *)

(** X4: a click on the toggle button flips whether the menu has the class
    [active] and keeps every other class of the menu; nothing else of the
    navigation state changes.  Two clicks in a row therefore leave every
    class as present or absent as before. *)
Theorem toggle_flips_active (s : Navigation.State) :
  JS.has_class "active" (Navigation.menu (Navigation.onToggle s))
  = negb (JS.has_class "active" (Navigation.menu s))
  /\ (forall c, c <> "active" ->
        (List.In c (Navigation.menu (Navigation.onToggle s))
         <-> List.In c (Navigation.menu s)))
  /\ (forall c,
        JS.has_class c
          (Navigation.menu (Navigation.onToggle (Navigation.onToggle s)))
        = JS.has_class c (Navigation.menu s))
  /\ Navigation.transform (Navigation.onToggle s) = Navigation.transform s
  /\ Navigation.lastScroll (Navigation.onToggle s) = Navigation.lastScroll s
  /\ Navigation.scrollTo_calls (Navigation.onToggle s)
     = Navigation.scrollTo_calls s.
Proof.
  assert (Hflip : forall l,
    JS.has_class "active" (JS.classList_toggle "active" l)
    = negb (JS.has_class "active" l)).
  { intros l. unfold JS.classList_toggle.
    destruct (JS.has_class "active" l) eqn:E; simpl negb.
    - destruct (JS.has_class "active" (JS.classList_remove "active" l)) eqn:E';
        [|reflexivity].
      apply has_class_In, classList_remove_In in E'. now destruct E'.
    - apply has_class_In, List.in_or_app. right. now left. }
  assert (Hother : forall l c, c <> "active" ->
    (List.In c (JS.classList_toggle "active" l) <-> List.In c l)).
  { intros l c Hc. unfold JS.classList_toggle.
    destruct (JS.has_class "active" l).
    - rewrite classList_remove_In. tauto.
    - rewrite List.in_app_iff. simpl. intuition congruence. }
  split; [apply Hflip|]. split; [intros c Hc; now apply Hother|].
  split; [|repeat split].
  intros c. simpl.
  destruct (String.eqb_spec c "active") as [->|Hc].
  - rewrite !Hflip. apply negb_involutive.
  - apply eq_true_iff_eq. rewrite !has_class_In.
    rewrite !Hother by exact Hc. reflexivity.
Qed.

(** ** Scroll animations: what a run of the observer does *)

Lemma classList_add_twice (c : string) (l : JS.classList) :
  JS.classList_add c (JS.classList_add c l) = JS.classList_add c l.
Proof. apply classList_add_idem, classList_add_has. Qed.

Lemma callback_lookup (entries : list ScrollAnimations.Entry) (el : nat)
    (dom : gmap nat JS.classList) :
  ScrollAnimations.callback entries dom !! el
  = (fun cl => if intersected el [entries]
               then JS.classList_add "fade-in" cl else cl) <$> dom !! el.
Proof.
  unfold intersected. simpl List.concat. rewrite List.app_nil_r.
  revert dom. induction entries as [|entry entries IH]; intros dom.
  - simpl. now destruct (dom !! el).
  - rewrite callback_cons, IH. simpl existsb.
    destruct (ScrollAnimations.isIntersecting entry); simpl andb.
    + destruct (Nat.eqb_spec (ScrollAnimations.target entry) el) as [->|Hne].
      * rewrite lookup_alter_eq. simpl orb.
        destruct (dom !! el) as [cl|]; simpl; [|reflexivity].
        destruct (existsb _ entries); [now rewrite classList_add_twice|reflexivity].
      * now rewrite lookup_alter_ne.
    + reflexivity.
Qed.

(** X5: what the section observer has done after any batches of entries:
    it has added [fade-in] (once, at the end of the class list, unless the
    class was there) to exactly the observed sections that some entry
    reported intersecting, left the class lists of all others as they were,
    and neither added nor dropped an element. *)
Theorem observe_marks_exactly_the_intersected
    (batches : list (list ScrollAnimations.Entry)) (el : nat)
    (dom : gmap nat JS.classList) :
  ScrollAnimations.observe batches dom !! el
  = (fun cl => if intersected el batches
               then JS.classList_add "fade-in" cl else cl) <$> dom !! el.
Proof.
  revert dom. induction batches as [|entries batches IH]; intros dom.
  - simpl. now destruct (dom !! el).
  - rewrite observe_cons, IH, callback_lookup.
    unfold intersected. simpl List.concat.
    rewrite List.app_nil_r, List.existsb_app.
    destruct (dom !! el) as [cl|]; simpl; [|reflexivity].
    destruct (existsb _ entries); simpl orb; [|reflexivity].
    destruct (existsb _ (List.concat batches));
      [now rewrite classList_add_twice | reflexivity].
Qed.

Lemma intersecting_entry_reveals_witness :
  let dom : gmap nat JS.classList := {[ 4%nat := ["section"; "about"] ]} in
  let leave := {| ScrollAnimations.target := 4%nat;
                  ScrollAnimations.isIntersecting := false |} in
  is_Some (dom !! 4%nat)
  /\ ScrollAnimations.revealed 4
       (ScrollAnimations.callback
          ([leave] ++ {| ScrollAnimations.target := 4%nat;
                         ScrollAnimations.isIntersecting := true |} :: [leave])%list
          dom) = true.
Proof.
  intros dom leave.
  assert (H : is_Some (dom !! 4%nat)) by (eexists; reflexivity).
  split; [exact H|].
  exact (intersecting_entry_reveals 4%nat [leave] [leave] dom H).
Defined.

(** ** Records: unescaped fields *)

(** X7: a tag is spliced into the markup unescaped, so tags are not kept
    apart: a portfolio item with the two tags [a] and [b] renders to the same
    markup as the item with the single tag made of [a], the closing and
    opening markup of a tag pill, and [b]. *)
Theorem adjacent_tags_render_like_one_spliced_tag
    (title description a b : string) (rest : list string)
    (image image' : option string) :
  toHTML (PortfolioItem.new title description (a :: b :: rest) image)
  = toHTML (PortfolioItem.new title description
              ((a ++ JS.lit "</span><span class='portfolio-tag'>" ++ b) :: rest)
              image').
Proof.
  cbv [toHTML PortfolioItem.to_html PortfolioItem.render PortfolioItem.new
       Model.data PortfolioItem.title PortfolioItem.description].
  do 6 f_equal.
  cbv [PortfolioItem.tagsHTML PortfolioItem.tags].
  change (List.map PortfolioItem.tagHTML (a :: b :: rest))
    with (PortfolioItem.tagHTML a :: PortfolioItem.tagHTML b
          :: List.map PortfolioItem.tagHTML rest).
  change (List.map PortfolioItem.tagHTML
            ((a ++ JS.lit "</span><span class='portfolio-tag'>" ++ b) :: rest))
    with (PortfolioItem.tagHTML
            (a ++ JS.lit "</span><span class='portfolio-tag'>" ++ b)
          :: List.map PortfolioItem.tagHTML rest).
  rewrite !join_cons. rewrite <- append_assoc. f_equal.
  unfold PortfolioItem.tagHTML.
  change (JS.lit "</span><span class='portfolio-tag'>")
    with (JS.lit "</span>" ++ JS.lit "<span class='portfolio-tag'>").
  now rewrite !append_assoc.
Qed.

(** ** Smooth scroll: the frame loop *)

Lemma frames_running (b c d t0 u : float) (times : list float) :
  PrimFloat.ltb (PrimFloat.sub u t0) d = true ->
  frames b c d (Some t0) (u :: times)
  = SmoothScroll.ease (PrimFloat.sub u t0) b c d
    :: frames b c d (Some t0) times.
Proof. intros L. simpl. unfold SmoothScroll.animation. now rewrite L. Qed.

Lemma frames_finished (b c d t0 u : float) (times : list float) :
  PrimFloat.ltb (PrimFloat.sub u t0) d = false ->
  frames b c d (Some t0) (u :: times)
  = [SmoothScroll.ease (PrimFloat.sub u t0) b c d].
Proof. intros L. simpl. unfold SmoothScroll.animation. now rewrite L. Qed.

Lemma frames_first (b c d t0 : float) (times : list float) :
  frames b c d None (t0 :: times) = frames b c d (Some t0) (t0 :: times).
Proof. reflexivity. Qed.

(** X10: the frame loop of [smoothScroll] scrolls once per frame, to the
    eased position for the time since the first frame, up to and including
    the first frame at which the test [timeElapsed < duration], computed on
    doubles, fails, and not once after it. *)
Theorem smoothScroll_stops_at_first_late_frame
    (b c d t : float) (pre post : list float) :
  let t0 := List.hd t pre in
  List.Forall (fun u => PrimFloat.ltb (PrimFloat.sub u t0) d = true) pre ->
  PrimFloat.ltb (PrimFloat.sub t t0) d = false ->
  frames b c d None (pre ++ t :: post)%list
  = List.map (fun u => SmoothScroll.ease (PrimFloat.sub u t0) b c d)
             (pre ++ [t])%list.
Proof.
  intros t0 Hpre Ht.
  assert (Hrun : frames b c d (Some t0) (pre ++ t :: post)%list
                 = List.map (fun u => SmoothScroll.ease (PrimFloat.sub u t0) b c d)
                            (pre ++ [t])%list).
  { clearbody t0. induction Hpre as [|u pre Hu Hpre IH].
    - simpl. now apply frames_finished.
    - change ((u :: pre) ++ t :: post)%list with (u :: (pre ++ t :: post))%list.
      rewrite (frames_running b c d t0 u _ Hu). simpl. now f_equal. }
  destruct pre as [|u pre]; [exact Hrun|].
  change ((u :: pre) ++ t :: post)%list with (u :: (pre ++ t :: post))%list.
  rewrite frames_first. exact Hrun.
Qed.

Lemma smoothScroll_stops_at_first_late_frame_witness :
  let t0 := 0x1.3333333333333p-2%float in
  let t1 := 0x1.f426666666666p+9%float in
  List.Forall (fun u => PrimFloat.ltb (PrimFloat.sub u t0) 1000 = true) [t0]
  /\ PrimFloat.ltb (PrimFloat.sub t1 t0) 1000 = false
  /\ List.length (frames 0 640 1000 None ([t0] ++ t1 :: [1017%float])%list)
     = 2%nat.
Proof.
  intros t0 t1.
  assert (Hpre : List.Forall
            (fun u => PrimFloat.ltb (PrimFloat.sub u t0) 1000 = true) [t0])
    by (repeat constructor).
  assert (Ht : PrimFloat.ltb (PrimFloat.sub t1 t0) 1000 = false)
    by reflexivity.
  split; [exact Hpre|]. split; [exact Ht|].
  rewrite (smoothScroll_stops_at_first_late_frame
             0 640 1000 t1 [t0] [1017%float] Hpre Ht).
  reflexivity.
Defined.

(** ** Debounce *)

Section DebounceFacts.

Context {A : Type}.
Variable wait : N.

Lemma debounce_run_cons (immediate : bool) (c : N * A) (calls : list (N * A))
    (s : Debounce.State A) :
  Debounce.run wait immediate (c :: calls) s
  = Debounce.run wait immediate calls
      (Debounce.call wait immediate (fst c) (snd c) s).
Proof. reflexivity. Qed.

Lemma play_promptly_cons (immediate : bool) (c : N * A)
    (calls : list (N * A)) (s : Debounce.State A) :
  Debounce.play wait immediate (Debounce.promptly (c :: calls)) s
  = Debounce.play wait immediate (Debounce.promptly calls)
      (Debounce.call wait immediate (fst c) (snd c)
         (Debounce.elapse immediate (fst c) s)).
Proof. reflexivity. Qed.

(** In the leading-edge mode the pending timer only marks when the last call
    was. *)
Lemma leading_run (calls : list (N * A)) (s : Debounce.State A)
    (prev : option (N * A)) :
  Debounce.timeout s = option_map (fun p => ((fst p + wait)%N, snd p)) prev ->
  Debounce.invoked
    (Debounce.play wait true (Debounce.promptly calls) s)
  = (Debounce.invoked s
     ++ Debounce.leading wait (option_map fst prev) calls)%list.
Proof.
  revert s prev. induction calls as [|[t a] calls IH]; intros s prev Hs.
  - simpl. now rewrite List.app_nil_r.
  - rewrite play_promptly_cons.
    rewrite (IH _ (Some (t, a))) by reflexivity.
    unfold Debounce.call, Debounce.elapse.
    destruct prev as [[p b]|]; simpl in Hs; rewrite Hs; simpl.
    + destruct (p + wait <=? t)%N; simpl.
      * now rewrite <- List.app_assoc.
      * now rewrite Hs.
    + rewrite Hs. now rewrite <- List.app_assoc.
Qed.

Lemma leading_flushed (calls : list (N * A)) (T : N) :
  Debounce.invoked
    (Debounce.elapse true T
       (Debounce.play wait true (Debounce.promptly calls) Debounce.init))
  = Debounce.leading wait None calls.
Proof.
  pose proof (leading_run calls Debounce.init None eq_refl) as E.
  simpl in E. unfold Debounce.elapse.
  destruct (Debounce.timeout _) as [[due a]|]; [|exact E].
  destruct (due <=? T)%N; exact E.
Qed.

(** X11: with [immediate] set (the default), on a page whose event loop takes
    a turn before every call (so that a timer due by then has run), [func]
    is called at the first call and at every call that comes [wait] or more
    after the call before it, with that call's own arguments, and at no other
    time: the timers never call it, however long one waits afterwards. *)
Theorem debounce_leading_edge (calls : list (N * A)) (T : N) :
  Debounce.invoked
    (Debounce.elapse true T
       (Debounce.play wait true (Debounce.promptly calls) Debounce.init))
  = Debounce.leading wait None calls.
Proof. apply leading_flushed. Qed.

Lemma trailing_run (calls : list (N * A)) (s : Debounce.State A)
    (p : N * A) (T : N) :
  Debounce.timeout s = Some ((fst p + wait)%N, snd p) ->
  List.Forall (fun c => (fst c + wait <= T)%N) (p :: calls) ->
  Debounce.invoked
    (Debounce.elapse false T
       (Debounce.play wait false (Debounce.promptly calls) s))
  = (Debounce.invoked s ++ Debounce.trailing wait (p :: calls))%list.
Proof.
  revert s p. induction calls as [|[t a] calls IH]; intros s p Hs HT.
  - simpl. unfold Debounce.elapse. rewrite Hs.
    apply Forall_cons_iff in HT as [HT _]. apply N.leb_le in HT.
    now rewrite HT.
  - rewrite play_promptly_cons.
    apply Forall_cons_iff in HT as [_ HT].
    rewrite (IH _ (t, a)) by (reflexivity || exact HT).
    unfold Debounce.call, Debounce.elapse. rewrite Hs. cbn [fst snd].
    change (Debounce.trailing wait (p :: (t, a) :: calls))
      with (if (fst p + wait <=? t)%N
            then ((fst p + wait)%N, snd p) :: Debounce.trailing wait ((t, a) :: calls)
            else Debounce.trailing wait ((t, a) :: calls)).
    destruct (fst p + wait <=? t)%N;
      cbn [Debounce.invoked Debounce.later Debounce.timeout andb negb].
    + now rewrite <- List.app_assoc.
    + reflexivity.
Qed.

Lemma trailing_flushed (calls : list (N * A)) (T : N) :
  List.Forall (fun c => (fst c + wait <= T)%N) calls ->
  Debounce.invoked
    (Debounce.elapse false T
       (Debounce.play wait false (Debounce.promptly calls) Debounce.init))
  = Debounce.trailing wait calls.
Proof.
  intros HT. destruct calls as [|[t a] calls]; [reflexivity|].
  rewrite play_promptly_cons.
  rewrite (trailing_run calls _ (t, a) T); [reflexivity | reflexivity | exact HT].
Qed.

(** X12: with [immediate] off, on a page whose event loop takes a turn
    before every call, [func] is called only by the timers: once for every
    call that no other call follows within [wait], with that call's
    arguments (the arguments of the calls before it in the burst are
    dropped).  [T] is the time of a last turn, by which the last timer is
    due. *)
Theorem debounce_trailing_edge (calls : list (N * A)) (T : N) :
  List.Forall (fun c => (fst c + wait <= T)%N) calls ->
  Debounce.invoked
    (Debounce.elapse false T
       (Debounce.play wait false (Debounce.promptly calls) Debounce.init))
  = Debounce.trailing wait calls.
Proof. apply trailing_flushed. Qed.

(** Calls with a timer pending: none of them calls [func], each replaces the
    timer. *)
Lemma run_pending (immediate : bool) (calls : list (N * A))
    (s : Debounce.State A) (p : N * A) :
  Debounce.timeout s = Some ((fst p + wait)%N, snd p) ->
  Debounce.invoked (Debounce.run wait immediate calls s) = Debounce.invoked s
  /\ Debounce.timeout (Debounce.run wait immediate calls s)
     = Some ((fst (List.last calls p) + wait)%N, snd (List.last calls p)).
Proof.
  revert s p. induction calls as [|[t a] calls IH]; intros s p Hs.
  - split; [reflexivity | exact Hs].
  - rewrite debounce_run_cons, last_cons. cbn [fst snd].
    destruct (IH (Debounce.call wait immediate t a s) (t, a) eq_refl)
      as [Hinv Hto].
    split; [|exact Hto]. rewrite Hinv.
    unfold Debounce.call. simpl. rewrite Hs. now rewrite andb_false_r.
Qed.

Lemma leading_within_wait (prev : N) (calls : list (N * A)) :
  Debounce.within_wait wait prev calls = true ->
  Debounce.leading wait (Some prev) calls = [].
Proof.
  revert prev. induction calls as [|[t a] calls IH]; intros prev H; [reflexivity|].
  simpl in H. apply andb_prop in H as [Ht H].
  apply andb_prop in Ht as [_ Ht]. apply N.ltb_lt in Ht.
  simpl. destruct (N.leb_spec (prev + wait) t) as [L|_]; [lia|].
  now apply IH.
Qed.

Lemma trailing_within_wait (c : N * A) (calls : list (N * A)) :
  Debounce.within_wait wait (fst c) calls = true ->
  Debounce.trailing wait (c :: calls)
  = [((fst (List.last calls c) + wait)%N, snd (List.last calls c))].
Proof.
  revert c. induction calls as [|[t a] calls IH]; intros c H; [reflexivity|].
  simpl in H. apply andb_prop in H as [Ht H].
  apply andb_prop in Ht as [_ Ht]. apply N.ltb_lt in Ht.
  rewrite last_cons.
  change (Debounce.trailing wait (c :: (t, a) :: calls))
    with (if (fst c + wait <=? t)%N
          then ((fst c + wait)%N, snd c) :: Debounce.trailing wait ((t, a) :: calls)
          else Debounce.trailing wait ((t, a) :: calls)).
  destruct (N.leb_spec (fst c + wait) t) as [L|_]; [lia|].
  now apply IH.
Qed.

Lemma within_wait_due (c : N * A) (calls : list (N * A)) (T : N) :
  Debounce.within_wait wait (fst c) calls = true ->
  (fst (List.last calls c) + wait <= T)%N ->
  List.Forall (fun c' => (fst c' + wait <= T)%N) (c :: calls).
Proof.
  revert c. induction calls as [|[t a] calls IH]; intros c Hb HT.
  - now repeat constructor.
  - simpl in Hb. apply andb_prop in Hb as [Ht Hb].
    apply andb_prop in Ht as [Ht _]. apply N.leb_le in Ht.
    rewrite last_cons in HT.
    specialize (IH (t, a) Hb HT).
    constructor; [|exact IH].
    apply Forall_cons_iff in IH as [Hta _]. simpl in Hta. lia.
Qed.

(** X13: a burst of calls, each less than [wait] after the one before,
    calls [func] exactly once: at once and with the arguments of the first
    call when [immediate] is set; [wait] after the last call and with the
    arguments of the last call when it is not.  It makes no difference
    whether the event loop takes a turn before each call of the burst: no
    timer is due by then. *)
Theorem debounce_burst_calls_func_once (c : N * A) (calls : list (N * A))
    (T : N) :
  Debounce.within_wait wait (fst c) calls = true ->
  (fst (List.last calls c) + wait <= T)%N ->
  Debounce.invoked
    (Debounce.elapse true T
       (Debounce.run wait true (c :: calls) Debounce.init)) = [c]
  /\ Debounce.invoked
       (Debounce.elapse false T
          (Debounce.run wait false (c :: calls) Debounce.init))
     = [((fst (List.last calls c) + wait)%N, snd (List.last calls c))]
  /\ Debounce.invoked
       (Debounce.elapse true T
          (Debounce.play wait true (Debounce.promptly (c :: calls))
             Debounce.init)) = [c]
  /\ Debounce.invoked
       (Debounce.elapse false T
          (Debounce.play wait false (Debounce.promptly (c :: calls))
             Debounce.init))
     = [((fst (List.last calls c) + wait)%N, snd (List.last calls c))].
Proof.
  intros Hb HT.
  assert (Hturns :
    Debounce.invoked
      (Debounce.elapse true T
         (Debounce.play wait true (Debounce.promptly (c :: calls))
            Debounce.init)) = [c]
    /\ Debounce.invoked
         (Debounce.elapse false T
            (Debounce.play wait false (Debounce.promptly (c :: calls))
               Debounce.init))
       = [((fst (List.last calls c) + wait)%N, snd (List.last calls c))]).
  { split.
    - rewrite leading_flushed. simpl. now rewrite leading_within_wait.
    - rewrite <- trailing_within_wait by exact Hb.
      apply trailing_flushed. now apply within_wait_due. }
  cut (Debounce.invoked
         (Debounce.elapse true T
            (Debounce.run wait true (c :: calls) Debounce.init)) = [c]
       /\ Debounce.invoked
            (Debounce.elapse false T
               (Debounce.run wait false (c :: calls) Debounce.init))
          = [((fst (List.last calls c) + wait)%N, snd (List.last calls c))]).
  { intros [H1 H2]. destruct Hturns as [H3 H4]. now repeat split. }
  clear Hturns. rewrite !debounce_run_cons. split.
  - destruct (run_pending true calls
                (Debounce.call wait true (fst c) (snd c) Debounce.init)
                c eq_refl) as [Hinv Hto].
    unfold Debounce.elapse. rewrite Hto.
    destruct (_ <=? T)%N; simpl; rewrite Hinv; now destruct c.
  - destruct (run_pending false calls
                (Debounce.call wait false (fst c) (snd c) Debounce.init)
                c eq_refl) as [Hinv Hto].
    unfold Debounce.elapse. rewrite Hto.
    apply N.leb_le in HT. rewrite HT. simpl. now rewrite Hinv.
Qed.

End DebounceFacts.

Lemma debounce_trailing_edge_witness :
  let calls := [(0%N, "a"); (5%N, "b"); (100%N, "c")] in
  List.Forall (fun c : N * string => (fst c + 20 <= 200)%N) calls
  /\ Debounce.invoked
       (Debounce.elapse false 200
          (Debounce.play 20 false (Debounce.promptly calls) Debounce.init))
     = [(25%N, "b"); (120%N, "c")].
Proof.
  intros calls.
  assert (H : List.Forall (fun c : N * string => (fst c + 20 <= 200)%N) calls)
    by (repeat constructor; simpl; lia).
  split; [exact H|].
  rewrite (debounce_trailing_edge 20 calls 200 H). reflexivity.
Defined.

Lemma debounce_burst_calls_func_once_witness :
  let calls := [(5%N, "b"); (15%N, "c")] in
  Debounce.within_wait 20 0 calls = true
  /\ (fst (List.last calls (0%N, "a")) + 20 <= 35)%N
  /\ Debounce.invoked
       (Debounce.elapse true 35
          (Debounce.run 20 true ((0%N, "a") :: calls) Debounce.init))
     = [(0%N, "a")]
  /\ Debounce.invoked
       (Debounce.elapse false 35
          (Debounce.run 20 false ((0%N, "a") :: calls) Debounce.init))
     = [(35%N, "c")].
Proof.
  intros calls.
  assert (Hb : Debounce.within_wait 20 (fst (0%N, "a")) calls = true)
    by reflexivity.
  assert (HT : (fst (List.last calls (0%N, "a")) + 20 <= 35)%N)
    by (simpl; lia).
  split; [exact Hb|]. split; [exact HT|].
  destruct (debounce_burst_calls_func_once 20 (0%N, "a") calls 35 Hb HT)
    as (H1 & H2 & _).
  split; [exact H1 | exact H2].
Defined.

(** Two calls in one task, with no turn of the event loop between them: the
    second finds the timer of the first still set, even when [wait] is 0. *)
Example debounce_two_calls_in_one_task :
  Debounce.invoked
    (Debounce.elapse true 0
       (Debounce.run 0 true [(0%N, "a"); (0%N, "b")] Debounce.init))
  = [(0%N, "a")]
  /\ Debounce.invoked
       (Debounce.elapse false 0
          (Debounce.run 0 false [(0%N, "a"); (0%N, "b")] Debounce.init))
     = [(0%N, "b")].
Proof. split; reflexivity. Qed.

(** ** Staggered reveal of the cards *)

Section StaggerFacts.

Variable k : Stagger.Kind.

Lemma stagger_enqueue_last (t : Stagger.Timer) (q : list Stagger.Timer) :
  List.Forall (fun t' => (fst t' <= fst t)%N) q ->
  Stagger.enqueue t q = (q ++ [t])%list.
Proof.
  induction 1 as [|t' q Ht' _ IH]; [reflexivity|].
  simpl. destruct (N.ltb_spec (fst t) (fst t')) as [L|_]; [lia|].
  now rewrite IH.
Qed.

Lemma stagger_schedule_app (t0 index : N)
    (entries : list ScrollAnimations.Entry) (q : list Stagger.Timer) :
  List.Forall (fun t' => (fst t' <= t0 + index * Stagger.step k)%N) q ->
  Stagger.schedule k t0 index entries q
  = (q ++ Stagger.schedule k t0 index entries [])%list.
Proof.
  revert index q. induction entries as [|entry entries IH]; intros index q Hq.
  - simpl. now rewrite List.app_nil_r.
  - simpl. destruct (ScrollAnimations.isIntersecting entry).
    + rewrite (stagger_enqueue_last
                 ((t0 + index * Stagger.step k)%N, ScrollAnimations.target entry)
                 q Hq).
      rewrite (IH (index + 1)%N (q ++ [_])%list).
      * rewrite (IH (index + 1)%N [_]).
        -- now rewrite <- List.app_assoc.
        -- repeat constructor. simpl. lia.
      * apply List.Forall_app. split.
        -- eapply List.Forall_impl; [|exact Hq]. simpl. intros; lia.
        -- repeat constructor. simpl. lia.
    + apply IH. eapply List.Forall_impl; [|exact Hq]. simpl. intros; lia.
Qed.

Lemma stagger_schedule_cons (t0 index : N) (entry : ScrollAnimations.Entry)
    (entries : list ScrollAnimations.Entry) :
  Stagger.schedule k t0 index (entry :: entries) []
  = if ScrollAnimations.isIntersecting entry
    then ((t0 + index * Stagger.step k)%N, ScrollAnimations.target entry)
         :: Stagger.schedule k t0 (index + 1) entries []
    else Stagger.schedule k t0 (index + 1) entries [].
Proof.
  simpl. destruct (ScrollAnimations.isIntersecting entry); [|reflexivity].
  rewrite stagger_schedule_app; [reflexivity|].
  repeat constructor. simpl. lia.
Qed.

Lemma stagger_schedule_sorted (t0 index : N)
    (entries : list ScrollAnimations.Entry) :
  StronglySorted Stagger.due_le (Stagger.schedule k t0 index entries [])
  /\ List.Forall (fun t => (t0 + index * Stagger.step k <= fst t)%N)
       (Stagger.schedule k t0 index entries [])
  /\ (List.length (Stagger.schedule k t0 index entries [])
      <= List.length entries)%nat.
Proof.
  revert index. induction entries as [|entry entries IH]; intros index.
  - repeat constructor.
  - rewrite stagger_schedule_cons.
    destruct (IH (index + 1)%N) as (Hs & Hlo & Hlen).
    assert (Hlo' : List.Forall
              (fun t => (t0 + index * Stagger.step k <= fst t)%N)
              (Stagger.schedule k t0 (index + 1) entries [])).
    { eapply List.Forall_impl; [|exact Hlo]. simpl. intros; lia. }
    destruct (ScrollAnimations.isIntersecting entry).
    + split; [|split].
      * constructor; [exact Hs | exact Hlo'].
      * constructor; [simpl; lia | exact Hlo'].
      * simpl. lia.
    + split; [exact Hs|]. split; [exact Hlo'|]. simpl. lia.
Qed.

Lemma stagger_run_sorted (T : N) (q : list Stagger.Timer) :
  StronglySorted Stagger.due_le q ->
  forall (fuel : nat) (n : N) (c : gmap nat Stagger.Style),
    (List.length q <= fuel)%nat ->
    exists w',
      Stagger.run_until k fuel T
        {| Stagger.now := n; Stagger.cards := c; Stagger.timers := q |}
      = Some w'
      /\ Stagger.cards w'
         = fold_left (fun c t => alter (Stagger.show k) (snd t) c)
             (List.filter (fun t => (fst t <=? T)%N) q) c
      /\ Stagger.timers w'
         = List.filter (fun t => negb (fst t <=? T)%N) q.
Proof.
  induction 1 as [|t q Hq IH Ht]; intros fuel n c Hfuel.
  - eexists. destruct fuel; simpl; repeat split.
  - destruct (N.leb_spec (fst t) T) as [L|L].
    + destruct fuel as [|fuel]; [simpl in Hfuel; lia|].
      simpl in Hfuel.
      destruct (IH fuel (N.max n (fst t))
                  (alter (Stagger.show k) (snd t) c)) as (w' & E & Hc & Hq');
        [lia|].
      exists w'. simpl. apply N.leb_le in L. rewrite L. simpl.
      now rewrite E, Hc, Hq'.
    + assert (Hall : List.Forall (fun t' => (fst t' <=? T)%N = false) (t :: q)).
      { constructor; [now apply N.leb_gt|].
        eapply List.Forall_impl; [|exact Ht].
        intros t' Ht'. unfold Stagger.due_le in Ht'. apply N.leb_gt. lia. }
      assert (E1 : List.filter (fun t => (fst t <=? T)%N) (t :: q) = []).
      { clear - Hall. induction Hall as [|a l Ha _ IHl]; [reflexivity|].
        simpl. now rewrite Ha. }
      assert (E2 : List.filter (fun t => negb (fst t <=? T)%N) (t :: q) = t :: q).
      { clear - Hall. induction Hall as [|a l Ha _ IHl]; [reflexivity|].
        simpl. rewrite Ha. simpl. now f_equal. }
      rewrite E1, E2. eexists.
      destruct fuel; simpl; apply N.leb_gt in L; rewrite L; repeat split.
Qed.

Lemma show_twice (st : Stagger.Style) :
  Stagger.show k (Stagger.show k st) = Stagger.show k st.
Proof. reflexivity. Qed.

Lemma stagger_fired_lookup (fired : list Stagger.Timer) (el : nat)
    (c : gmap nat Stagger.Style) :
  fold_left (fun c t => alter (Stagger.show k) (snd t) c) fired c !! el
  = (fun st => if existsb (fun t => Nat.eqb (snd t) el) fired
               then Stagger.show k st else st) <$> c !! el.
Proof.
  revert c. induction fired as [|t fired IH]; intros c.
  - simpl. now destruct (c !! el).
  - simpl fold_left. rewrite IH. simpl existsb.
    destruct (Nat.eqb_spec (snd t) el) as [->|Hne].
    + rewrite lookup_alter_eq. simpl orb.
      destruct (c !! el) as [st|]; simpl; [|reflexivity].
      now destruct (existsb _ fired).
    + now rewrite lookup_alter_ne.
Qed.

Lemma stagger_due_by (t0 T index : N) (el : nat)
    (entries : list ScrollAnimations.Entry) :
  existsb (fun t => Nat.eqb (snd t) el)
    (List.filter (fun t => (fst t <=? T)%N)
       (Stagger.schedule k t0 index entries []))
  = Stagger.due_by k t0 T index el entries.
Proof.
  revert index. induction entries as [|entry entries IH]; intros index.
  - reflexivity.
  - rewrite stagger_schedule_cons. simpl Stagger.due_by.
    destruct (ScrollAnimations.isIntersecting entry); simpl andb.
    + simpl List.filter.
      destruct (t0 + index * Stagger.step k <=? T)%N.
      * simpl existsb. now rewrite IH, andb_true_r.
      * now rewrite IH, andb_false_r.
    + apply IH.
Qed.

(** X14: the staggered reveal.  After [animateOnScroll] has hidden the
    cards, let the observer deliver one batch of entries while no timer is
    pending.  Then at any later time [T] each card is either still hidden as
    [animateOnScroll] left it, or shown (opacity 1, the final transform): it
    is shown exactly if the batch has an intersecting entry for it whose
    delay, its position in the batch times the step of the grid, has run out
    by [T].  No card is added or dropped, and as many callback runs as the
    batch has entries are enough. *)
Theorem cards_are_revealed_in_batch_order
    (entries : list ScrollAnimations.Entry) (w : Stagger.World)
    (T : N) (fuel : nat) :
  Stagger.timers w = [] ->
  exists w',
    Stagger.run_until k (List.length entries + fuel) T
      (Stagger.callback k entries (Stagger.animateOnScroll k w)) = Some w'
    /\ forall el,
         Stagger.cards w' !! el
         = (fun st => if Stagger.due_by k (Stagger.now w) T 0 el entries
                      then Stagger.show k (Stagger.hide k st)
                      else Stagger.hide k st) <$> Stagger.cards w !! el.
Proof.
  intros Hidle.
  destruct (stagger_schedule_sorted (Stagger.now w) 0 entries)
    as (Hs & _ & Hlen).
  destruct (stagger_run_sorted T _ Hs (List.length entries + fuel)%nat
              (Stagger.now w) (Stagger.hide k <$> Stagger.cards w))
    as (w' & E & Hc & _); [lia|].
  exists w'. split.
  - unfold Stagger.callback, Stagger.animateOnScroll. simpl.
    rewrite Hidle. exact E.
  - intros el. rewrite Hc, stagger_fired_lookup, stagger_due_by.
    rewrite lookup_fmap. now destruct (Stagger.cards w !! el).
Qed.

End StaggerFacts.

Lemma cards_are_revealed_in_batch_order_witness :
  let st := {| Stagger.opacity := ""; Stagger.transform := "";
               Stagger.transition := "" |} in
  let w := {| Stagger.now := 0;
              Stagger.cards := {[ 1%nat := st; 2%nat := st; 3%nat := st ]};
              Stagger.timers := [] |} in
  let entry el b := {| ScrollAnimations.target := el;
                       ScrollAnimations.isIntersecting := b |} in
  let entries := [entry 1%nat true; entry 2%nat false; entry 3%nat true] in
  Stagger.timers w = []
  /\ exists w',
       Stagger.run_until Stagger.skills 3 150
         (Stagger.callback Stagger.skills entries
            (Stagger.animateOnScroll Stagger.skills w)) = Some w'
       /\ Stagger.opacity <$> Stagger.cards w' !! 1%nat = Some "1"
       /\ Stagger.opacity <$> Stagger.cards w' !! 2%nat = Some "0"
       /\ Stagger.opacity <$> Stagger.cards w' !! 3%nat = Some "0".
Proof.
  intros st w entry entries. split; [reflexivity|].
  destruct (cards_are_revealed_in_batch_order Stagger.skills entries w 150 0
              eq_refl) as (w' & E & H).
  exists w'. split; [exact E|].
  rewrite !H. repeat split; vm_compute; reflexivity.
Defined.

(** ** Contact form: any number of submits *)

Lemma form_enqueue_Forall (P : ContactForm.Timer -> Prop)
    (t : ContactForm.Timer) (q : list ContactForm.Timer) :
  List.Forall P (ContactForm.enqueue t q) <-> P t /\ List.Forall P q.
Proof.
  induction q as [|t' q IH]; simpl.
  - rewrite !Forall_cons_iff. tauto.
  - destruct (ContactForm.due t <? ContactForm.due t')%N.
    + rewrite !Forall_cons_iff. tauto.
    + rewrite !Forall_cons_iff, IH. tauto.
Qed.

Lemma form_enqueue_sorted (t : ContactForm.Timer) (q : list ContactForm.Timer) :
  StronglySorted FormSession.due_le q ->
  StronglySorted FormSession.due_le (ContactForm.enqueue t q).
Proof.
  induction 1 as [|t' q Hq IH Ht']; simpl.
  - repeat constructor.
  - destruct (N.ltb_spec (ContactForm.due t) (ContactForm.due t')) as [L|L].
    + constructor; [now constructor|].
      constructor; [unfold FormSession.due_le; lia|].
      eapply List.Forall_impl; [|exact Ht'].
      unfold FormSession.due_le. intros; lia.
    + constructor; [exact IH|].
      apply form_enqueue_Forall. split; [exact L | exact Ht'].
Qed.

Lemma form_enqueue_node (n : nat) (t : ContactForm.Timer)
    (q : list ContactForm.Timer) :
  List.In n (List.map FormSession.node (ContactForm.enqueue t q))
  <-> n = FormSession.node t \/ List.In n (List.map FormSession.node q).
Proof.
  induction q as [|t' q IH]; simpl.
  - intuition congruence.
  - destruct (ContactForm.due t <? ContactForm.due t')%N; simpl.
    + intuition congruence.
    + rewrite IH. intuition congruence.
Qed.

Lemma form_enqueue_work (t : ContactForm.Timer) (q : list ContactForm.Timer) :
  FormSession.work (ContactForm.enqueue t q)
  = (FormSession.weight t + FormSession.work q)%nat.
Proof.
  unfold FormSession.work. induction q as [|t' q IH]; simpl.
  - reflexivity.
  - destruct (ContactForm.due t <? ContactForm.due t')%N; simpl.
    + reflexivity.
    + rewrite IH. lia.
Qed.

Lemma form_work_cons (t : ContactForm.Timer) (q : list ContactForm.Timer) :
  FormSession.work (t :: q) = (FormSession.weight t + FormSession.work q)%nat.
Proof. reflexivity. Qed.

Lemma form_weight_pos (t : ContactForm.Timer) : (1 <= FormSession.weight t)%nat.
Proof. unfold FormSession.weight. destruct (ContactForm.callback t); lia. Qed.

(** The event loop on a page in order: it does not run out of callbacks, it
    keeps the page in order, and it leaves no timer due. *)
Lemma run_until_timed (cap T : N) (fuel : nat) (w : ContactForm.World) :
  FormSession.Timed cap w ->
  (FormSession.work (ContactForm.timers w) <= fuel)%nat ->
  exists w',
    ContactForm.run_until fuel T w = Some w'
    /\ FormSession.Timed cap w'
    /\ ContactForm.now w' = N.max (ContactForm.now w) T
    /\ List.Forall (fun t => (T < ContactForm.due t)%N) (ContactForm.timers w')
    /\ ContactForm.console w' = ContactForm.console w
    /\ ContactForm.name_field w' = ContactForm.name_field w
    /\ ContactForm.email_field w' = ContactForm.email_field w
    /\ ContactForm.message_field w' = ContactForm.message_field w.
Proof.
  revert w. induction fuel as [|fuel IH]; intros w Hw Hfuel.
  - destruct w as [n nf ef mf ch q lg nx]. simpl in *.
    destruct q as [|t q].
    + eexists. split; [reflexivity|]. simpl.
      split; [|repeat split; constructor].
      destruct Hw as [Hs Ha Hc Hch]. simpl in *.
      split; simpl; try constructor. exact Hch.
    + rewrite form_work_cons in Hfuel.
      pose proof (form_weight_pos t). lia.
  - destruct w as [n nf ef mf ch q lg nx].
    destruct Hw as [Hs Ha Hc Hch]. simpl in *.
    destruct q as [|t q].
    + eexists. split; [reflexivity|]. simpl.
      split; [|repeat split; constructor].
      split; simpl; try constructor. exact Hch.
    + apply StronglySorted_inv in Hs as [Hs Hhead].
      apply Forall_cons_iff in Ha as [Hat Ha].
      apply Forall_cons_iff in Hc as [Hct Hc].
      destruct (N.leb_spec (ContactForm.due t) T) as [L|L].
      * (* the head timer fires *)
        rewrite (N.max_r n (ContactForm.due t)) by exact Hat.
        assert (Hahead : List.Forall
                  (fun t' => (ContactForm.due t <= ContactForm.due t')%N) q).
        { exact Hhead. }
        rewrite form_work_cons in Hfuel.
        destruct t as [d cb]. simpl in *.
        destruct cb as [m|m];
          unfold FormSession.weight in Hfuel; simpl in Hfuel.
        -- (* fade out, then set the removal *)
           match goal with
           | |- exists w', ContactForm.run_until fuel T ?w1 = _ /\ _ =>
               destruct (IH w1) as (w' & E & Hw' & Hn & Hd & Hlog & Hf)
           end.
           ++ split; simpl.
              ** now apply form_enqueue_sorted.
              ** apply form_enqueue_Forall. split; [simpl; lia | exact Hahead].
              ** apply form_enqueue_Forall. split; [|exact Hc].
                 unfold FormSession.capped in *. simpl in *. exact Hct.
              ** apply List.Forall_map. 
                 eapply List.Forall_impl; [|exact Hch].
                 intros c Hin.
                 assert (Hfst : fst (if Nat.eqb (fst c) m
                           then (fst c, ContactForm.set_animation
                                           "fadeOut 0.3s ease" (snd c))
                           else c) = fst c)
                   by (now destruct (Nat.eqb (fst c) m)).
                 rewrite Hfst. apply form_enqueue_node.
                 simpl in Hin. unfold FormSession.node at 1 in Hin.
                 simpl in Hin. destruct Hin as [Hin|Hin]; [left | right].
                 --- now rewrite <- Hin.
                 --- exact Hin.
           ++ simpl. rewrite form_enqueue_work.
              unfold FormSession.weight. simpl. lia.
           ++ exists w'. split; [exact E|]. split; [exact Hw'|].
              simpl in Hn. split; [lia|]. split; [exact Hd|].
              split; [exact Hlog | exact Hf].
        -- (* remove the node *)
           match goal with
           | |- exists w', ContactForm.run_until fuel T ?w1 = _ /\ _ =>
               destruct (IH w1) as (w' & E & Hw' & Hn & Hd & Hlog & Hf)
           end.
           ++ split; simpl.
              ** exact Hs.
              ** exact Hahead.
              ** exact Hc.
              ** apply List.Forall_forall. intros c Hin.
                 apply List.filter_In in Hin as [Hin Hne].
                 apply negb_true_iff, Nat.eqb_neq in Hne.
                 rewrite List.Forall_forall in Hch.
                 specialize (Hch c Hin). simpl in Hch.
                 unfold FormSession.node at 1 in Hch. simpl in Hch.
                 destruct Hch as [Hch|Hch]; [congruence | exact Hch].
           ++ simpl. lia.
           ++ exists w'. split; [exact E|]. split; [exact Hw'|].
              simpl in Hn. split; [lia|]. split; [exact Hd|].
              split; [exact Hlog | exact Hf].
      * (* the head timer is not due yet *)
        eexists. split; [reflexivity|]. simpl.
        split; [|split; [reflexivity|]; split; [|repeat split]].
        -- split; simpl.
           ++ now constructor.
           ++ constructor; [lia|].
              eapply List.Forall_impl; [|exact Hhead].
              unfold FormSession.due_le. intros; lia.
           ++ now constructor.
           ++ exact Hch.
        -- constructor; [exact L|].
           eapply List.Forall_impl; [|exact Hhead].
           unfold FormSession.due_le. intros; lia.
Qed.

Lemma timed_later_cap (cap cap' : N) (w : ContactForm.World) :
  (cap <= cap')%N -> FormSession.Timed cap w -> FormSession.Timed cap' w.
Proof.
  intros Hle [Hs Ha Hc Hch]. split; try assumption.
  eapply List.Forall_impl; [|exact Hc].
  intros t. unfold FormSession.capped.
  destruct (ContactForm.callback t); lia.
Qed.

Lemma submit_settled (typed : ContactForm.FormData) (w : ContactForm.World) :
  FormSession.Settled w ->
  FormSession.Settled (FormSession.submit typed w)
  /\ ContactForm.console (FormSession.submit typed w)
     = (ContactForm.console w ++ [("Form submitted:", typed)])%list.
Proof.
  intros [Hs Ha Hc Hch]. destruct w as [n nf ef mf ch q lg nx].
  destruct typed as [tn te tm]. simpl in *. split; [|reflexivity].
  split; simpl.
  - now apply form_enqueue_sorted.
  - apply form_enqueue_Forall. split; [simpl; lia | exact Ha].
  - apply form_enqueue_Forall. split; [|exact Hc].
    unfold FormSession.capped. simpl. lia.
  - apply List.Forall_app. split.
    + eapply List.Forall_impl; [|exact Hch].
      intros c Hin. apply form_enqueue_node. now right.
    + repeat constructor. apply form_enqueue_node. now left.
Qed.

Lemma play_settled (inputs : list FormSession.Input) (w : ContactForm.World) :
  FormSession.Settled w ->
  exists w',
    FormSession.play inputs w = Some w'
    /\ FormSession.Settled w'
    /\ ContactForm.console w'
       = (ContactForm.console w
          ++ List.map (fun typed => ("Form submitted:", typed))
               (FormSession.submitted inputs))%list.
Proof.
  revert w. induction inputs as [|[typed|dt] inputs IH]; intros w Hw.
  - exists w. simpl. now rewrite List.app_nil_r.
  - destruct (submit_settled typed w Hw) as [Hw1 Hlog].
    destruct (IH _ Hw1) as (w' & E & Hw' & Hlog').
    exists w'. split; [exact E|]. split; [exact Hw'|].
    rewrite Hlog', Hlog. simpl. now rewrite <- List.app_assoc.
  - destruct (run_until_timed _ (ContactForm.now w + dt) _ w Hw (Nat.le_refl _))
      as (w1 & E1 & Hw1 & Hn & _ & Hlog & _).
    assert (Hs1 : FormSession.Settled w1).
    { unfold FormSession.Settled.
      apply (timed_later_cap (ContactForm.now w + 3300)); [lia | exact Hw1]. }
    destruct (IH _ Hs1) as (w' & E & Hw' & Hlog').
    exists w'. split; [simpl; now rewrite E1|]. split; [exact Hw'|].
    now rewrite Hlog', Hlog.
Qed.

(** X15: no banner is left behind.  Start from a form with nothing appended
    and no timer pending, and let the user submit any values any number of
    times, with any waiting in between.  The event loop never runs short of
    callbacks on the way, every submit is logged once, in order and with the
    values typed, and 3300 time units after the last event every banner has
    been removed and no timer is pending. *)
Theorem every_banner_is_removed (inputs : list FormSession.Input)
    (t0 : N) (typed0 defaults : ContactForm.FormData)
    (log0 : list (string * ContactForm.FormData)) (node0 fuel : nat) :
  exists w w',
    FormSession.play inputs (ContactForm.filled t0 typed0 defaults log0 node0)
    = Some w
    /\ ContactForm.run_until
         (FormSession.work (ContactForm.timers w) + fuel)
         (ContactForm.now w + 3300) w = Some w'
    /\ ContactForm.children w' = []
    /\ ContactForm.timers w' = []
    /\ ContactForm.console w'
       = (log0 ++ List.map (fun typed => ("Form submitted:", typed))
                    (FormSession.submitted inputs))%list.
Proof.
  assert (H0 : FormSession.Settled
                 (ContactForm.filled t0 typed0 defaults log0 node0)).
  { split; simpl; constructor. }
  destruct (play_settled inputs _ H0) as (w & E & Hw & Hlog).
  destruct (run_until_timed _ (ContactForm.now w + 3300)
              (FormSession.work (ContactForm.timers w) + fuel) w Hw
              ltac:(lia))
    as (w' & E' & [Hs Ha Hc Hch] & _ & Hd & Hlog' & _).
  exists w, w'. split; [exact E|]. split; [exact E'|].
  assert (Hq : ContactForm.timers w' = []).
  { destruct (ContactForm.timers w') as [|t q]; [reflexivity|].
    apply Forall_cons_iff in Hd as [Hd _].
    apply Forall_cons_iff in Hc as [Hc _].
    unfold FormSession.capped in Hc.
    destruct (ContactForm.callback t); lia. }
  split; [|split; [exact Hq|]].
  - rewrite Hq in Hch. destruct (ContactForm.children w') as [|c ch];
      [reflexivity|].
    apply Forall_cons_iff in Hch as [[] _].
  - now rewrite Hlog', Hlog.
Qed.

Example two_submits :
  let typed := {| ContactForm.name := "A"; ContactForm.email := "b@x.com";
                  ContactForm.message := "hi" |} in
  let blank := {| ContactForm.name := ""; ContactForm.email := "";
                  ContactForm.message := "" |} in
  let banners inputs :=
    option_map (fun w => List.map fst (ContactForm.children w))
      (FormSession.play inputs (ContactForm.filled 0 blank blank [] 0)) in
  banners [FormSession.Submit typed; FormSession.Wait 1000;
           FormSession.Submit blank] = Some [0%nat; 1%nat]
  /\ banners [FormSession.Submit typed; FormSession.Wait 1000;
              FormSession.Submit blank; FormSession.Wait 2300] = Some [1%nat]
  /\ banners [FormSession.Submit typed; FormSession.Wait 1000;
              FormSession.Submit blank; FormSession.Wait 3300] = Some [].
Proof. repeat split. Qed.
